(** * LiteConvert: a shallow embedding of the conversion core

    The development follows the three layers of the program:
    [utils.py] (text, paths, page ranges, naming), [convert.py]
    (the conversion functions) and [workers.py] (the batch worker).

    Conventions of the embedding.
    - A Python [str] is a Rocq [string] holding its UTF-8 bytes.  The
      models of [lower], [strip] and [int] are exact on ASCII text;
      bytes above 127 are caseless, non-blank and non-digit.
    - A Python [int] is a [Z].
    - A [pathlib.Path] is the string that [str(path)] prints (POSIX
      flavour, already in pathlib's normal form).
    - Exceptions are values of [Exn]; a computation that may raise
      returns an [Outcome]. *)

From Stdlib Require Import Ascii String ZArith QArith.
From stdpp Require Import gmap strings list fin_maps pretty.

Local Open Scope string_scope.
Local Open Scope Z_scope.

(** ** Python text primitives *)

Module Py.

Definition chr (n : nat) : ascii := Ascii.ascii_of_nat n.

Definition str1 (c : ascii) : string := String c EmptyString.

(** Characters removed by [str.strip()] (ASCII range). *)
Definition is_space (c : ascii) : bool :=
  let n := Ascii.nat_of_ascii c in
  ((9 <=? n)%nat && (n <=? 13)%nat) || ((28 <=? n)%nat && (n <=? 32)%nat).

(** Blanks skipped by [int()] around the literal. *)
Definition is_int_space (c : ascii) : bool :=
  let n := Ascii.nat_of_ascii c in
  ((9 <=? n)%nat && (n <=? 13)%nat) || (n =? 32)%nat.

Definition is_digit (c : ascii) : bool :=
  let n := Ascii.nat_of_ascii c in (48 <=? n)%nat && (n <=? 57)%nat.

Definition digit_val (c : ascii) : Z := Z.of_nat (Ascii.nat_of_ascii c) - 48.

Definition mem_char (c : ascii) (cs : string) : bool :=
  existsb (Ascii.eqb c) (list_ascii_of_string cs).

Fixpoint lstrip_by (P : ascii -> bool) (s : string) : string :=
  match s with
  | EmptyString => EmptyString
  | String c s' => if P c then lstrip_by P s' else s
  end.

Fixpoint rstrip_by (P : ascii -> bool) (s : string) : string :=
  match s with
  | EmptyString => EmptyString
  | String c s' =>
      match rstrip_by P s' with
      | EmptyString => if P c then EmptyString else str1 c
      | r => String c r
      end
  end.

Definition strip_by (P : ascii -> bool) (s : string) : string :=
  rstrip_by P (lstrip_by P s).

(** [s.strip()] *)
Definition strip (s : string) : string := strip_by is_space s.

(** [s.strip(chars)] and [s.lstrip(chars)] *)
Definition strip_chars (chars s : string) : string :=
  strip_by (fun c => mem_char c chars) s.

Definition lstrip_chars (chars s : string) : string :=
  lstrip_by (fun c => mem_char c chars) s.

Definition lower_char (c : ascii) : ascii :=
  let n := Ascii.nat_of_ascii c in
  if ((65 <=? n)%nat && (n <=? 90)%nat)%bool then chr (n + 32) else c.

(** [s.lower()] *)
Fixpoint lower (s : string) : string :=
  match s with
  | EmptyString => EmptyString
  | String c s' => String (lower_char c) (lower s')
  end.

(** [sub in s] *)
Fixpoint contains (sub s : string) : bool :=
  String.prefix sub s ||
  match s with
  | EmptyString => false
  | String _ s' => contains sub s'
  end.

Fixpoint replace_from (old new : string) (skip : nat) (s : string) : string :=
  match s with
  | EmptyString => EmptyString
  | String c s' =>
      match skip with
      | S k => replace_from old new k s'
      | O =>
          if String.prefix old s
          then new ++ replace_from old new (String.length old - 1) s'
          else String c (replace_from old new 0 s')
      end
  end.

Fixpoint intersperse (new s : string) : string :=
  match s with
  | EmptyString => new
  | String c s' => new ++ String c (intersperse new s')
  end.

(** [s.replace(old, new)]: every non-overlapping occurrence, scanning
    from the left. *)
Definition replace (old new s : string) : string :=
  match old with
  | EmptyString => intersperse new s
  | _ => replace_from old new 0 s
  end.

(** [s.split(sep)] for a one-character separator. *)
Fixpoint split (sep : ascii) (s : string) : list string :=
  match s with
  | EmptyString => [EmptyString]
  | String c s' =>
      if Ascii.eqb c sep then EmptyString :: split sep s'
      else match split sep s' with
           | [] => [str1 c]
           | w :: ws => String c w :: ws
           end
  end.

(** [s.split(sep, 1)] when [sep in s]: the text before and after the
    first separator; [None] when the separator does not occur. *)
Fixpoint split_once (sep : ascii) (s : string) : option (string * string) :=
  match s with
  | EmptyString => None
  | String c s' =>
      if Ascii.eqb c sep then Some (EmptyString, s')
      else match split_once sep s' with
           | Some (a, b) => Some (String c a, b)
           | None => None
           end
  end.

Fixpoint endswith (suffix s : string) : bool :=
  String.eqb suffix s ||
  match s with
  | EmptyString => false
  | String _ s' => endswith suffix s'
  end.

(** Digits of an [int()] literal after the sign.  [prev] tells whether
    the previous character was a digit, so that an underscore is
    accepted only between two digits. *)
Fixpoint int_digits (prev : bool) (acc : Z) (s : string) : option Z :=
  match s with
  | EmptyString => if prev then Some acc else None
  | String c s' =>
      if is_digit c then int_digits true (10 * acc + digit_val c) s'
      else if (Ascii.eqb c "_" && prev)%bool then
        match s' with
        | String d _ => if is_digit d then int_digits false acc s' else None
        | EmptyString => None
        end
      else None
  end.

(** [int(s)]: [None] stands for [ValueError]. *)
Definition int (s : string) : option Z :=
  match strip_by is_int_space s with
  | String "-" ds => Z.opp <$> int_digits false 0 ds
  | String "+" ds => int_digits false 0 ds
  | ds => int_digits false 0 ds
  end.

(** [str(n)] *)
Definition str (n : Z) : string := pretty n.

End Py.

(** ** Exceptions and outcomes *)

(** The exceptions the program distinguishes: [parse_page_range] catches
    [ValueError] only, every other handler catches [Exception].
    [Failure] stands for any other exception raised by a codec or by the
    operating system. *)
Inductive Exn : Type :=
| ValueError (msg : string)
| OverflowError (msg : string)
| Failure (msg : string).

(** [str(exc)] *)
Definition exn_str (e : Exn) : string :=
  match e with
  | ValueError m | OverflowError m | Failure m => m
  end.

Inductive Outcome (A : Type) : Type :=
| Ret (a : A)
| Raise (e : Exn).
Arguments Ret {A} a.
Arguments Raise {A} e.

Definition obind {A B} (o : Outcome A) (k : A -> Outcome B) : Outcome B :=
  match o with
  | Ret a => k a
  | Raise e => Raise e
  end.

(** [sys.maxsize] of a 64-bit interpreter: the longest list there is. *)
Definition PY_SSIZE_T_MAX : Z := 2 ^ 63 - 1.

(** The integers of [range(a, b)]. *)
Definition py_range (a b : Z) : list Z :=
  map (fun i : nat => a + Z.of_nat i) (seq 0 (Z.to_nat (b - a))).

(** [list(range(a, b))]: the length is taken first and must fit a
    machine word.  Exhausting the memory below that bound is outside the
    model. *)
Definition list_range (a b : Z) : Outcome (list Z) :=
  if PY_SSIZE_T_MAX <? b - a
  then Raise (OverflowError "Python int too large to convert to C ssize_t")
  else Ret (py_range a b).

(** The largest magnitude [float(n)] accepts; beyond it the conversion
    raises [OverflowError]. *)
Definition FLOAT_INT_LIMIT : Z := 2 ^ 1024 - 2 ^ 970.

(** [float(n)], kept exact as a rational. *)
Definition py_float (n : Z) : Outcome Q :=
  if FLOAT_INT_LIMIT <=? Z.abs n
  then Raise (OverflowError "int too large to convert to float")
  else Ret (inject_Z n).

(** [min(a, b)] and [max(a, b)] on numbers that are not integers. *)
Definition Qmin (a b : Q) : Q := if Qle_bool a b then a else b.
Definition Qmax (a b : Q) : Q := if Qle_bool a b then b else a.

(** ** utils.py *)

Abbreviation Path := string (only parsing).
Abbreviation FS := (gmap string string) (only parsing).

(** *** pathlib *)

Definition path_root (s : string) : string :=
  match s with
  | String "/" (String "/" (String "/" _)) => "/"
  | String "/" (String "/" _) => "//"
  | String "/" _ => "/"
  | _ => EmptyString
  end.

Definition is_component (c : string) : bool :=
  negb (String.eqb c EmptyString) && negb (String.eqb c ".").

Definition path_comps (s : string) : list string :=
  List.filter is_component (Py.split "/" s).

Definition path_str (root : string) (comps : list string) : string :=
  match comps with
  | [] => match root with EmptyString => "." | _ => root end
  | _ => root ++ String.concat "/" comps
  end.

(** [d / seg] *)
Definition path_join (d : Path) (seg : string) : Path :=
  match seg with
  | String "/" _ => path_str (path_root seg) (path_comps seg)
  | _ => path_str (path_root d) (path_comps d ++ path_comps seg)
  end.

(** [path.name] *)
Definition path_name (p : Path) : string := List.last (path_comps p) EmptyString.

(** [path.parent] *)
Definition path_parent (p : Path) : Path :=
  path_str (path_root p) (removelast (path_comps p)).

(** The text before and after the last [sep] of [s]. *)
Fixpoint rsplit_once (sep : ascii) (s : string) : option (string * string) :=
  match s with
  | EmptyString => None
  | String c s' =>
      match rsplit_once sep s' with
      | Some (a, b) => Some (String c a, b)
      | None => if Ascii.eqb c sep then Some (EmptyString, s') else None
      end
  end.

(** [path.suffix]: from the last dot of the name, unless that dot is
    the first or the last character. *)
Definition path_suffix (p : Path) : string :=
  match rsplit_once "." (path_name p) with
  | Some (String _ _, String c b) => String "." (String c b)
  | _ => EmptyString
  end.

(** [path.stem] *)
Definition path_stem (p : Path) : string :=
  match rsplit_once "." (path_name p) with
  | Some (String a0 a, String _ _) => String a0 a
  | _ => path_name p
  end.

(** [path.exists()]; the file system holds regular files only. *)
Definition path_exists (fs : FS) (p : Path) : bool :=
  bool_decide (is_Some (fs !! p)).

(** *** File classification *)

Definition SUPPORTED_EXTS : list string :=
  [".heic"; ".heif"; ".jpg"; ".jpeg"; ".png"; ".pdf"].
Definition IMAGE_EXTS : list string := [".jpg"; ".jpeg"; ".png"].
Definition HEIC_EXTS : list string := [".heic"; ".heif"].

Definition str_in (s : string) (l : list string) : bool :=
  existsb (String.eqb s) l.

Definition is_supported_file (path : Path) : bool :=
  str_in (Py.lower (path_suffix path)) SUPPORTED_EXTS.

Definition is_image_file (path : Path) : bool :=
  str_in (Py.lower (path_suffix path)) IMAGE_EXTS.

Definition is_heic_file (path : Path) : bool :=
  str_in (Py.lower (path_suffix path)) HEIC_EXTS.

Definition is_pdf_file (path : Path) : bool :=
  String.eqb (Py.lower (path_suffix path)) ".pdf".

(** *** dedupe_paths *)

(** The loop of [dedupe_paths].  [resolve] is [Path.resolve]: it
    depends on the links and the working directory of the machine,
    which the loop does not change.  [seen] holds resolved paths, which
    compare as their normal forms do. *)
Fixpoint dedupe_loop (resolve : Path -> Path) (paths : list Path)
    (seen : gset string) (unique : list Path) : list Path :=
  match paths with
  | [] => unique
  | p :: rest =>
      let rp := resolve p in
      if bool_decide (rp ∈ seen) then dedupe_loop resolve rest seen unique
      else dedupe_loop resolve rest ({[rp]} ∪ seen) (unique ++ [p])%list
  end.

Definition dedupe_paths (resolve : Path -> Path) (paths : list Path)
    : list Path :=
  dedupe_loop resolve paths ∅ [].

(** *** parse_page_range *)

(** [if x] for an optional integer: [None] and [0] are false. *)
Definition truthy (x : option Z) : bool :=
  match x with
  | Some n => negb (n =? 0)
  | None => false
  end.

(** The pages one comma-separated token adds to [pages]; a token that
    is skipped adds none. *)
Definition parse_part (part : string) : Outcome (list Z) :=
  let part := Py.strip part in
  match part with
  | EmptyString => Ret []
  | _ =>
      match Py.split_once "-" part with
      | Some (start_s, end_s) =>
          match Py.int start_s, Py.int end_s with
          | Some start, Some end_ =>
              let start := if start <=? 0 then 1 else start in
              let '(start, end_) :=
                if end_ <? start then (end_, start) else (start, end_) in
              list_range start (end_ + 1)
          | _, _ => Ret []
          end
      | None =>
          match Py.int part with
          | Some n => if n <=? 0 then Ret [] else Ret [n]
          | None => Ret []
          end
      end
  end.

Fixpoint parse_parts (parts : list string) (pages : list Z) : Outcome (list Z) :=
  match parts with
  | [] => Ret pages
  | part :: rest =>
      obind (parse_part part) (fun rng => parse_parts rest (pages ++ rng))
  end.

(** The closing loop: keep the first occurrence of each page that does
    not exceed [max_pages]. *)
Fixpoint dedupe_pages (max_pages : option Z) (pages : list Z)
    (seen : gset Z) (ordered : list Z) : list Z :=
  match pages with
  | [] => ordered
  | n :: rest =>
      if bool_decide (n ∈ seen) then dedupe_pages max_pages rest seen ordered
      else if truthy max_pages && (default 0 max_pages <? n)
      then dedupe_pages max_pages rest seen ordered
      else dedupe_pages max_pages rest ({[n]} ∪ seen) (ordered ++ [n])
  end.

Definition parse_page_range (page_range : string) (max_pages : option Z)
    : Outcome (list Z) :=
  match page_range with
  | EmptyString =>
      if truthy max_pages then list_range 1 (default 0 max_pages + 1)
      else Ret []
  | _ =>
      obind (parse_parts (Py.split "," page_range) [])
            (fun pages => Ret (dedupe_pages max_pages pages ∅ []))
  end.

(** *** ensure_unique_path *)

(** The candidate the loop tries at counter [idx]. *)
Definition unique_candidate (parent stem suffix : string) (idx : nat) : Path :=
  path_join parent (stem ++ "_" ++ Py.str (Z.of_nat idx) ++ suffix).

(** The [while True] loop, counting up from [idx].  It is run with one
    more step than there are files, which is enough to reach a free
    name ([unique_search_finds] below). *)
Fixpoint unique_search (fs : FS) (parent stem suffix : string)
    (fuel idx : nat) : option Path :=
  match fuel with
  | O => None
  | S fuel' =>
      let candidate := unique_candidate parent stem suffix idx in
      if negb (path_exists fs candidate) then Some candidate
      else unique_search fs parent stem suffix fuel' (S idx)
  end.

Definition ensure_unique_path (fs : FS) (path : Path) : Path :=
  if negb (path_exists fs path) then path
  else
    let stem := path_stem path in
    let suffix := path_suffix path in
    let parent := path_parent path in
    default path (unique_search fs parent stem suffix (S (size fs)) 1).

(** *** Naming *)

Record NamingContext : Type := {
  nc_input_path : Path;
  nc_mode : string;
  nc_index : option Z;
  nc_page : option Z;
}.

(** [while "--" in out: out = out.replace("--", "-")]; every round
    shortens [out], so [fuel = len(out)] rounds are enough. *)
Fixpoint collapse_dashes (fuel : nat) (out : string) : string :=
  match fuel with
  | O => out
  | S fuel' =>
      if Py.contains "--" out
      then collapse_dashes fuel' (Py.replace "--" "-" out)
      else out
  end.

Definition expand_naming_pattern (pattern : string) (ctx : NamingContext)
    : string :=
  let mapping :=
    [ ("name", path_stem (nc_input_path ctx));
      ("ext", Py.lower (Py.lstrip_chars "." (path_suffix (nc_input_path ctx))));
      ("index", from_option Py.str EmptyString (nc_index ctx));
      ("page", from_option Py.str EmptyString (nc_page ctx));
      ("mode", nc_mode ctx) ] in
  let out :=
    fold_left (fun out kv => Py.replace ("{" ++ fst kv ++ "}") (snd kv) out)
              mapping pattern in
  let out := Py.replace "__" "_" out in
  let out := collapse_dashes (String.length out) out in
  Py.strip_chars " _-." out.

(** The characters [build_output_path] replaces: backslash, slash,
    colon, star, question mark, double quote, angle brackets, bar. *)
Definition FORBIDDEN_CHARS : list ascii :=
  map Py.chr [92; 47; 58; 42; 63; 34; 60; 62; 124]%nat.

Definition build_output_path (directory : Path) (filename_no_ext extension : string)
    : Path :=
  let safe_name :=
    fold_left (fun safe_name ch => Py.replace (Py.str1 ch) "_" safe_name)
              FORBIDDEN_CHARS filename_no_ext in
  path_join directory (safe_name ++ extension).

(** ** convert.py: data model *)

Inductive Mode : Type :=
| HEIC_TO_JPG
| HEIC_TO_PNG
| IMAGES_TO_PDF_MERGED
| IMAGES_TO_PDF_SEPARATE
| PDF_TO_JPG
| PDF_TO_PNG.

(** The string each mode is in the source. *)
Definition mode_label (m : Mode) : string :=
  match m with
  | HEIC_TO_JPG => "HEIC → JPG"
  | HEIC_TO_PNG => "HEIC → PNG"
  | IMAGES_TO_PDF_MERGED => "JPG/PNG → PDF (single merged)"
  | IMAGES_TO_PDF_SEPARATE => "JPG/PNG → PDF (separate files)"
  | PDF_TO_JPG => "PDF → JPG"
  | PDF_TO_PNG => "PDF → PNG"
  end.

Definition mode_eqb (a b : Mode) : bool :=
  String.eqb (mode_label a) (mode_label b).

Inductive OverwritePolicy : Type := Skip | Auto_rename | Overwrite.

Definition policy_eqb (a b : OverwritePolicy) : bool :=
  match a, b with
  | Skip, Skip | Auto_rename, Auto_rename | Overwrite, Overwrite => true
  | _, _ => false
  end.

Record JobSpec : Type := {
  input_path : Path;
  mode : Mode;
  output_dir : Path;
  naming_pattern : string;
  overwrite_policy : OverwritePolicy;
  preserve_exif_orientation : bool;
  quality : Z;
  dpi : Z;
  page_range : string;
  page_size : string;
  fit_mode : string;
  margins_mm : Z;
}.

Record ConversionResult : Type := {
  success : bool;
  outputs : list Path;
  errors : list string;
  elapsed_s : Q;
  pages : Z;
}.

(** ** workers.py: data model *)

Record WorkerSummary : Type := {
  total : nat;
  ok : nat;
  failed : nat;
  ws_elapsed_s : Q;
}.

(** The signals of [ConversionWorker], in the order of their
    declaration. *)
Inductive Event : Type :=
| progressItem (row : nat) (p : Q)
| progressTotal (p : Q)
| status (text : string)
| itemDone (row : nat) (res : ConversionResult)
| error (row : nat) (msg : string)
| finished (summary : WorkerSummary).

(** ** The world a run acts on *)

(** The files, the signals emitted so far, and how often the
    cancellation flag and the clock have been read. *)
Record World : Type := {
  fs : FS;
  log : list Event;
  polls : nat;
  clock : nat;
}.

Definition set_fs (f : FS) (w : World) : World :=
  {| fs := f; log := log w; polls := polls w; clock := clock w |}.

Definition add_event (ev : Event) (w : World) : World :=
  {| fs := fs w; log := log w ++ [ev]; polls := polls w; clock := clock w |}.

(** The world after one more reading of the clock, or of the flag. *)
Definition tick (w : World) : World :=
  {| fs := fs w; log := log w; polls := polls w; clock := S (clock w) |}.

Definition polled (w : World) : World :=
  {| fs := fs w; log := log w; polls := S (polls w); clock := clock w |}.

(** A computation on the world that returns or raises. *)
Definition M (A : Type) : Type := World -> Outcome A * World.

Definition ret {A} (a : A) : M A := fun w => (Ret a, w).

Definition raise {A} (e : Exn) : M A := fun w => (Raise e, w).

Definition bind {A B} (m : M A) (k : A -> M B) : M B :=
  fun w =>
    match m w with
    | (Ret a, w') => k a w'
    | (Raise e, w') => (Raise e, w')
    end.

Notation "'let*' x ':=' m 'in' k" := (bind m (fun x => k))
  (at level 10, x name, m at level 100, k at level 200, only parsing).
Notation "'let*' ' p ':=' m 'in' k" := (bind m (fun p => k))
  (at level 10, p pattern, m at level 100, k at level 200, only parsing).
Notation "'do*' m 'in' k" := (bind m (fun _ => k))
  (at level 10, m at level 100, k at level 200, only parsing).

(** A pure computation that may raise. *)
Definition lift {A} (o : Outcome A) : M A := fun w => (o, w).

(** [try: m except Exception as exc: ...], with the handler left to the
    caller: the exception, if any, is handed over as a value. *)
Definition attempt {A} (m : M A) : M (Outcome A) :=
  fun w => let '(o, w') := m w in (Ret o, w').

Definition get_fs : M FS := fun w => (Ret (fs w), w).

Definition put_fs (f : FS) : M unit := fun w => (Ret tt, set_fs f w).

(** A codec call that reads and writes files. *)
Definition on_fs {A} (f : FS -> Outcome A * FS) : M A :=
  fun w => let '(o, files) := f (fs w) in (o, set_fs files w).

(** [signal.emit(...)] *)
Definition emit (ev : Event) : M unit := fun w => (Ret tt, add_event ev w).

Definition ProgressCallback : Type := Q -> M unit.
Definition CancelledCallback : Type := M bool.

(** [if on_progress: on_progress(p)] *)
Definition call_progress (on_progress : option ProgressCallback) (p : Q) : M unit :=
  match on_progress with
  | Some f => f p
  | None => ret tt
  end.

(** [is_cancelled and is_cancelled()] *)
Definition call_cancelled (is_cancelled : option CancelledCallback) : M bool :=
  match is_cancelled with
  | Some f => f
  | None => ret false
  end.

(** ** The codecs and the environment *)

Inductive ImageFormat : Type := JPEG | PNG.

Definition format_eqb (a b : ImageFormat) : bool :=
  match a, b with
  | JPEG, JPEG | PNG, PNG => true
  | _, _ => false
  end.

(** The keyword arguments of [im.save]. *)
Record SaveParams : Type := {
  sp_quality : option Z;
  sp_subsampling : option Z;
  sp_optimize : bool;
}.

Inductive FitMode : Type := SHRINK | FILL.

(** What [img2pdf.get_layout_fun] was called with. *)
Record Layout : Type := {
  pagesize : option (Q * Q);
  border : Q;
  fit : option FitMode;
}.

(** PIL, img2pdf, PyMuPDF, the operating system, the clock and the
    interactive thread, each at its interface.  A codec reads the
    files it is pointed to, so it is a function of the file system. *)
Record Env : Type := {
  Image : Type;
  Doc : Type;
  Page : Type;
  Pixmap : Type;
  (** [Image.open(path)] followed by [im.load()] *)
  Image_open : FS -> Path -> Outcome Image;
  (** [ImageOps.exif_transpose(im)] *)
  exif_transpose : Image -> Outcome Image;
  (** [im.convert("RGB")] *)
  Image_convert_RGB : Image -> Outcome Image;
  (** [im.save(path, format=..., **params)] *)
  Image_save : Image -> Path -> ImageFormat -> SaveParams -> FS -> Outcome unit * FS;
  (** [img2pdf.convert(paths, layout_fun=layout)] *)
  img2pdf_convert : list string -> option Layout -> FS -> Outcome string;
  (** the error [path.open("wb")] raises, if any *)
  open_wb_error : FS -> Path -> option Exn;
  (** [fitz.open(path)] *)
  fitz_open : FS -> Path -> Outcome Doc;
  (** [doc.page_count] *)
  page_count : Doc -> Z;
  (** [doc.load_page(i)] *)
  load_page : Doc -> Z -> Outcome Page;
  (** [page.get_pixmap(matrix=Matrix(zoom, zoom), alpha=...)] *)
  get_pixmap : Page -> Q -> bool -> Outcome Pixmap;
  (** [pix.save(path)] *)
  Pixmap_save : Pixmap -> Path -> FS -> Outcome unit * FS;
  (** the value of the cancellation flag at its n-th reading *)
  cancel_flag : nat -> bool;
  (** the value of [time.perf_counter()] at its n-th reading *)
  perf_counter_at : nat -> Q;
}.

(** ** convert.py: the conversion functions *)

Section Convert.

Variable E : Env.

(** [time.perf_counter()] *)
Definition perf_counter : M Q :=
  fun w => (Ret (perf_counter_at E (clock w)), tick w).

(** [ConversionResult(success, outputs, errors,
    time.perf_counter() - start, pages)] *)
Definition result_at (start : Q) (success : bool) (outputs : list Path)
    (errors : list string) (pages : Z) : M ConversionResult :=
  let* now := perf_counter in
  ret {| success := success; outputs := outputs; errors := errors;
         elapsed_s := (now - start)%Q; pages := pages |}.

Definition _resolve_collision (fs : FS) (path : Path) (policy : OverwritePolicy)
    : Path :=
  if policy_eqb policy Overwrite then path
  else if policy_eqb policy Skip && path_exists fs path then path
  else ensure_unique_path fs path.

Definition apply_exif_orientation_if_needed (image : Image E) (preserve : bool)
    : Image E :=
  if negb preserve then image
  else match exif_transpose E image with
       | Ret transposed => transposed
       | Raise _ => image
       end.

(** [pattern and pattern.strip()] *)
Definition and_strip (pattern : string) : string :=
  match pattern with
  | EmptyString => EmptyString
  | _ => Py.strip pattern
  end.

(** The file name (without extension) of the output of [_to_jpg_png]. *)
Definition jpg_png_filename (job : JobSpec) (target_ext : string) : string :=
  let filename_no_ext := and_strip (naming_pattern job) in
  let filename_no_ext :=
    match filename_no_ext with
    | EmptyString =>
        path_stem (input_path job) ++ "_" ++ Py.lstrip_chars "." target_ext
    | _ => filename_no_ext
    end in
  let filename_no_ext :=
    Py.replace "{mode}" (mode_label (mode job))
      (Py.replace "{name}" (path_stem (input_path job))
        (Py.replace "{ext}" (Py.lstrip_chars "." (path_suffix (input_path job)))
          filename_no_ext)) in
  Py.strip_chars " _-."
    (Py.replace "{page}" EmptyString
      (Py.replace "{index}" EmptyString filename_no_ext)).

Definition jpg_png_out_path (job : JobSpec) (target_ext : string) : Path :=
  build_output_path (output_dir job) (jpg_png_filename job target_ext)
                    ("." ++ Py.lower target_ext).

(** What the guarded block of a single-output conversion ends with:
    the early return of the skip branch, or a written file. *)
Inductive Written : Type :=
| Skipped (out_path : Path)
| Saved (out_path : Path).

(** The statements of [_to_jpg_png] inside [try], up to
    [outputs.append(out_path)]. *)
Definition to_jpg_png_body (job : JobSpec) (target_ext : string) : M Written :=
  let* files := get_fs in
  let* im := lift (Image_open E files (input_path job)) in
  let im := apply_exif_orientation_if_needed im (preserve_exif_orientation job) in
  let out_path := jpg_png_out_path job target_ext in
  let out_path := _resolve_collision files out_path (overwrite_policy job) in
  if policy_eqb (overwrite_policy job) Skip && path_exists files out_path
  then ret (Skipped out_path)
  else
    let jpeg := str_in (Py.lower target_ext) ["jpg"; "jpeg"] in
    let save_params :=
      if jpeg
      then {| sp_quality := Some (quality job); sp_subsampling := Some 1;
              sp_optimize := true |}
      else {| sp_quality := None; sp_subsampling := None;
              sp_optimize := false |} in
    let format_name := if jpeg then JPEG else PNG in
    let* im := if format_eqb format_name JPEG
               then lift (Image_convert_RGB E im) else ret im in
    do* on_fs (Image_save E im out_path format_name save_params) in
    ret (Saved out_path).

(** [_to_jpg_png]: one handler guards the whole body.  [outputs] is
    appended to just before [on_progress] is called, so an exception of
    the callback leaves the written path in [outputs]. *)
Definition _to_jpg_png (job : JobSpec) (target_ext : string)
    (on_progress : option ProgressCallback)
    (is_cancelled : option CancelledCallback) : M ConversionResult :=
  let* start := perf_counter in
  let pages := 1 in
  let* r := attempt (to_jpg_png_body job target_ext) in
  match r with
  | Raise exc => result_at start false [] [exn_str exc] pages
  | Ret (Skipped out_path) => result_at start true [out_path] [] pages
  | Ret (Saved out_path) =>
      let* r := attempt (call_progress on_progress 1%Q) in
      match r with
      | Raise exc => result_at start false [out_path] [exn_str exc] pages
      | Ret _ => result_at start true [out_path] [] pages
      end
  end.

(** [img2pdf.mm_to_pt]: [(72.0 * length) / 25.4]; the product converts
    the integer to a float first. *)
Definition mm_to_pt (length : Z) : Outcome Q :=
  obind (py_float length) (fun x => Ret (72 * x / (254 # 10))%Q).

Definition _page_size_to_points (page_size : string) : option (Q * Q) :=
  match page_size with
  | EmptyString => None
  | _ =>
      if String.eqb (Py.lower page_size) "auto" then None
      else if String.eqb (Py.lower page_size) "a4"
      then Some ((72 * 210 / (254 # 10))%Q, (72 * 297 / (254 # 10))%Q)
      else if String.eqb (Py.lower page_size) "letter"
      then Some ((72 * (85 # 10))%Q, (72 * 11)%Q)
      else None
  end.

(** The layout both image-to-PDF functions build from the page size,
    the fit mode and the margins. *)
Definition pdf_layout (page_size fit_mode : string) (margins_mm : Z)
    : Outcome (option Layout) :=
  let ps := _page_size_to_points page_size in
  obind (mm_to_pt (Z.max 0 margins_mm)) (fun border =>
  match ps with
  | Some _ =>
      Ret (Some {| pagesize := ps; border := border;
                   fit := Some (if String.eqb (Py.lower fit_mode) "fit"
                                then SHRINK else FILL) |})
  | None =>
      if Qlt_le_dec 0 border
      then Ret (Some {| pagesize := None; border := border; fit := None |})
      else Ret None
  end).

(** [with path.open("wb") as f: f.write(img2pdf.convert(...))]: the
    file is opened, hence created or emptied, before the argument of
    [f.write] is evaluated. *)
Definition write_pdf (path : Path) (inputs : list string)
    (layout : option Layout) : M unit :=
  let* files := get_fs in
  match open_wb_error E files path with
  | Some exc => raise exc
  | None =>
      do* put_fs (<[path := EmptyString]> files) in
      let* files := get_fs in
      let* data := lift (img2pdf_convert E inputs layout files) in
      put_fs (<[path := data]> files)
  end.

Definition convert_images_to_single_pdf (input_images : list Path)
    (output_path : Path) (page_size fit_mode : string) (margins_mm : Z)
    : M ConversionResult :=
  let* start := perf_counter in
  let* r := attempt (
    let* layout := lift (pdf_layout page_size fit_mode margins_mm) in
    write_pdf output_path input_images layout) in
  match r with
  | Raise exc => result_at start false [] [exn_str exc] 0
  | Ret _ => result_at start true [output_path] [] 0
  end.

(** The file name (without extension) of the output of
    [_images_to_pdf_separate]. *)
Definition separate_pdf_filename (job : JobSpec) : string :=
  let filename_no_ext := and_strip (naming_pattern job) in
  let filename_no_ext :=
    match filename_no_ext with
    | EmptyString => path_stem (input_path job) ++ "_pdf"
    | _ => filename_no_ext
    end in
  let filename_no_ext :=
    Py.replace "{mode}" (mode_label (mode job))
      (Py.replace "{ext}" (Py.lstrip_chars "." (path_suffix (input_path job)))
        (Py.replace "{name}" (path_stem (input_path job)) filename_no_ext)) in
  Py.strip_chars " _-."
    (Py.replace "{page}" EmptyString
      (Py.replace "{index}" EmptyString filename_no_ext)).

Definition separate_pdf_out_path (job : JobSpec) : Path :=
  build_output_path (output_dir job) (separate_pdf_filename job) ".pdf".

Definition images_to_pdf_separate_body (job : JobSpec) : M Written :=
  let* layout := lift (pdf_layout (page_size job) (fit_mode job) (margins_mm job)) in
  let* files := get_fs in
  let out_path := separate_pdf_out_path job in
  let out_path := _resolve_collision files out_path (overwrite_policy job) in
  if policy_eqb (overwrite_policy job) Skip && path_exists files out_path
  then ret (Skipped out_path)
  else
    do* write_pdf out_path [input_path job] layout in
    ret (Saved out_path).

Definition _images_to_pdf_separate (job : JobSpec)
    (on_progress : option ProgressCallback) : M ConversionResult :=
  let* start := perf_counter in
  let* r := attempt (images_to_pdf_separate_body job) in
  match r with
  | Raise exc => result_at start false [] [exn_str exc] 1
  | Ret (Skipped out_path) => result_at start true [out_path] [] 1
  | Ret (Saved out_path) =>
      let* r := attempt (call_progress on_progress 1%Q) in
      match r with
      | Raise exc => result_at start false [out_path] [exn_str exc] 1
      | Ret _ => result_at start true [out_path] [] 1
      end
  end.

(** The file name (without extension) of the image of page [page_no]. *)
Definition pdf_page_filename (job : JobSpec) (page_no : Z) : string :=
  let filename_no_ext := and_strip (naming_pattern job) in
  let filename_no_ext :=
    match filename_no_ext with
    | EmptyString => path_stem (input_path job) ++ "_page-" ++ Py.str page_no
    | _ => filename_no_ext
    end in
  let filename_no_ext :=
    Py.replace "{page}" (Py.str page_no)
      (Py.replace "{mode}" (mode_label (mode job))
        (Py.replace "{ext}" (Py.lstrip_chars "." (path_suffix (input_path job)))
          (Py.replace "{name}" (path_stem (input_path job)) filename_no_ext))) in
  Py.strip_chars " _-." (Py.replace "{index}" EmptyString filename_no_ext).

Definition pdf_page_out_path (job : JobSpec) (fmt : ImageFormat) (page_no : Z)
    : Path :=
  build_output_path (output_dir job) (pdf_page_filename job page_no)
                    (if format_eqb fmt JPEG then ".jpg" else ".png").

(** The statements inside the [try] of one page: the path appended to
    [outputs], or the exception. *)
Definition pdf_page (job : JobSpec) (fmt : ImageFormat) (doc : Doc E)
    (zoom : Q) (page_no : Z) : M Path :=
  let* page := lift (load_page E doc (page_no - 1)) in
  let* pix := lift (get_pixmap E page zoom (format_eqb fmt PNG)) in
  let* files := get_fs in
  let out_path := pdf_page_out_path job fmt page_no in
  let out_path := _resolve_collision files out_path (overwrite_policy job) in
  if policy_eqb (overwrite_policy job) Skip && path_exists files out_path
  then ret out_path
  else
    do* on_fs (Pixmap_save E pix out_path) in
    ret out_path.

(** [f"Page {page_no}: {exc}"] *)
Definition page_error (page_no : Z) (exc : Exn) : string :=
  "Page " ++ Py.str page_no ++ ": " ++ exn_str exc.

(** [idx / max(1, len(pages_list))] *)
Definition page_progress (idx n_pages : nat) : Q :=
  Z.of_nat idx # Pos.of_nat (Nat.max 1 n_pages).

(** [for idx, page_no in enumerate(pages_list, start=1)]: [pages] is
    what is left of [pages_list], [n_pages] its full length. *)
Fixpoint pdf_pages_loop (job : JobSpec) (fmt : ImageFormat) (doc : Doc E)
    (zoom : Q) (on_progress : option ProgressCallback)
    (is_cancelled : option CancelledCallback) (n_pages idx : nat)
    (pages : list Z) (outputs : list Path) (errors : list string)
    : M (list Path * list string) :=
  match pages with
  | [] => ret (outputs, errors)
  | page_no :: rest =>
      let* cancelled := call_cancelled is_cancelled in
      if cancelled then ret (outputs, errors)
      else
        let* r := attempt (pdf_page job fmt doc zoom page_no) in
        let '(outputs, errors) :=
          match r with
          | Ret out_path => ((outputs ++ [out_path])%list, errors)
          | Raise exc =>
              (outputs,
               (errors ++ [page_error page_no exc])%list)
          end in
        do* call_progress on_progress (page_progress idx n_pages) in
        pdf_pages_loop job fmt doc zoom on_progress is_cancelled n_pages
                       (S idx) rest outputs errors
  end.

(** [max(1.0, float(dpi) / 72.0)] *)
Definition zoom_of_dpi (dpi : Z) : Outcome Q :=
  obind (py_float dpi) (fun d => Ret (Qmax 1%Q (d / 72)%Q)).

(** The pages [_pdf_to_images] goes through. *)
Definition selected_pages (job : JobSpec) (total_pages : Z) : Outcome (list Z) :=
  obind (parse_page_range (page_range job) (Some total_pages)) (fun pages_list =>
    match pages_list with
    | [] => list_range 1 (total_pages + 1)
    | _ => Ret pages_list
    end).

(** [_pdf_to_images]: the first [try] guards [fitz.open]; the second
    one has a [finally] clause only, so what is raised between the
    opening of the document and the page loop, or by a callback, leaves
    the function. *)
Definition _pdf_to_images (job : JobSpec) (fmt : ImageFormat)
    (on_progress : option ProgressCallback)
    (is_cancelled : option CancelledCallback) : M ConversionResult :=
  let* start := perf_counter in
  let* r := attempt (let* files := get_fs in
                     lift (fitz_open E files (input_path job))) in
  match r with
  | Raise exc => result_at start false [] [exn_str exc] 0
  | Ret doc =>
      let total_pages := page_count E doc in
      let* pages_list := lift (selected_pages job total_pages) in
      let* zoom := lift (zoom_of_dpi (dpi job)) in
      let* '(outputs, errors) :=
        pdf_pages_loop job fmt doc zoom on_progress is_cancelled
                       (length pages_list) 1 pages_list [] [] in
      result_at start (bool_decide (errors = [])) outputs errors
                (Z.of_nat (length outputs))
  end.

Definition unsupported : ConversionResult :=
  {| success := false; outputs := [];
     errors := ["Unsupported input/mode combination"];
     elapsed_s := 0%Q; pages := 0 |}.

Definition convert_job (job : JobSpec) (on_progress : option ProgressCallback)
    (is_cancelled : option CancelledCallback) : M ConversionResult :=
  let mode := mode job in
  if is_heic_file (input_path job)
     && (mode_eqb mode HEIC_TO_JPG || mode_eqb mode HEIC_TO_PNG)
  then
    let target := if Py.endswith "JPG" (mode_label mode) then "JPG" else "PNG" in
    _to_jpg_png job target on_progress is_cancelled
  else if is_image_file (input_path job) && mode_eqb mode IMAGES_TO_PDF_SEPARATE
  then _images_to_pdf_separate job on_progress
  else if is_pdf_file (input_path job)
          && (mode_eqb mode PDF_TO_JPG || mode_eqb mode PDF_TO_PNG)
  then
    let fmt := if Py.endswith "JPG" (mode_label mode) then JPEG else PNG in
    _pdf_to_images job fmt on_progress is_cancelled
  else ret unsupported.

End Convert.

(** ** workers.py: ConversionWorker *)

Section Worker.

Variable E : Env.

(** [self.is_cancelled()]: one more reading of the flag. *)
Definition is_cancelled : M bool :=
  fun w => (Ret (cancel_flag E (polls w)), polled w).

(** [(idx + 1) / max(1, total)] *)
Definition batch_progress (idx total : nat) : Q :=
  Z.of_nat (idx + 1) # Pos.of_nat (Nat.max 1 total).

(** The image inputs of the batch, in queue order. *)
Definition image_jobs (jobs : list JobSpec) : list JobSpec :=
  List.filter (fun j => is_image_file (input_path j)) jobs.

Definition merged_mode (jobs : list JobSpec) : bool :=
  existsb (fun j => mode_eqb (mode j) IMAGES_TO_PDF_MERGED) jobs.

(** The file name (without extension) of the merged PDF, from the
    first image job. *)
Definition merged_filename (first : JobSpec) : string :=
  let filename_no_ext := and_strip (naming_pattern first) in
  let filename_no_ext :=
    match filename_no_ext with
    | EmptyString => path_stem (input_path first) ++ "_merged"
    | _ => filename_no_ext
    end in
  let filename_no_ext :=
    Py.replace "{mode}" (mode_label (mode first))
      (Py.replace "{ext}" (Py.lstrip_chars "." (path_suffix (input_path first)))
        (Py.replace "{name}" (path_stem (input_path first)) filename_no_ext)) in
  Py.strip_chars " _-."
    (Py.replace "{page}" EmptyString
      (Py.replace "{index}" EmptyString filename_no_ext)).

(** [first.output_dir / f"{filename_no_ext}.pdf"], collision-resolved. *)
Definition merged_output_path (files : FS) (first : JobSpec) : Path :=
  _resolve_collision files
    (path_join (output_dir first) (merged_filename first ++ ".pdf"))
    (overwrite_policy first).

(** The marking loop of the skip branch: the counters are not
    touched. *)
Fixpoint mark_skipped (total : nat) (res : ConversionResult) (idx : nat)
    (jobs : list JobSpec) : M unit :=
  match jobs with
  | [] => ret tt
  | j :: rest =>
      do* (if is_image_file (input_path j)
           then do* emit (progressItem idx 1%Q) in emit (itemDone idx res)
           else ret tt) in
      do* emit (progressTotal (Qmin 1%Q (batch_progress idx total))) in
      mark_skipped total res (S idx) rest
  end.

(** The marking loop after the merge. *)
Fixpoint mark_merged (total : nat) (res : ConversionResult) (idx : nat)
    (jobs : list JobSpec) (ok failed : nat) : M (nat * nat) :=
  match jobs with
  | [] => ret (ok, failed)
  | j :: rest =>
      let* '(ok, failed) :=
        if is_image_file (input_path j)
        then
          do* emit (progressItem idx 1%Q) in
          do* emit (itemDone idx res) in
          ret ((ok + (if success res then 1 else 0))%nat,
               (failed + (if success res then 0 else 1))%nat)
        else ret (ok, failed) in
      do* emit (progressTotal (Qmin 1%Q (batch_progress idx total))) in
      mark_merged total res (S idx) rest ok failed
  end.

(** [finished.emit(WorkerSummary(total, ok, failed,
    time.perf_counter() - start))] *)
Definition emit_finished (start : Q) (total ok failed : nat) : M unit :=
  let* now := perf_counter E in
  emit (finished {| total := total; ok := ok; failed := failed;
                    ws_elapsed_s := (now - start)%Q |}).

(** The merged branch of [run], entered with the first image job. *)
Definition run_merged (start : Q) (jobs : list JobSpec) (first : JobSpec)
    : M unit :=
  let total := length jobs in
  let* files := get_fs in
  let output_path := merged_output_path files first in
  if policy_eqb (overwrite_policy first) Skip && path_exists files output_path
  then
    let res := {| success := true; outputs := [output_path]; errors := [];
                  elapsed_s := 0%Q; pages := 0 |} in
    do* mark_skipped total res 0 jobs in
    emit_finished start total (length (image_jobs jobs)) 0
  else
    do* emit (status "Merging images into single PDF…") in
    let* res :=
      convert_images_to_single_pdf E
        (map input_path (image_jobs jobs)) output_path
        (page_size first) (fit_mode first) (margins_mm first) in
    let* '(ok, failed) := mark_merged total res 0 jobs 0%nat 0%nat in
    emit_finished start total ok failed.

(** The [on_progress] closure of job [idx]. *)
Definition on_progress_of (idx : nat) : ProgressCallback :=
  fun p => emit (progressItem idx (Qmax 0%Q (Qmin 1%Q p))).

(** One round of the per-item loop once the job has started; the
    result tells whether the job counts as succeeded. *)
Definition process_job (total idx : nat) (job : JobSpec) : M bool :=
  do* emit (status ("Processing " ++ path_name (input_path job) ++ "…")) in
  let* r := attempt (
    let* res := convert_job E job (Some (on_progress_of idx)) (Some is_cancelled) in
    do* emit (itemDone idx res) in
    ret (success res)) in
  let* counted_ok :=
    match r with
    | Ret s => ret s
    | Raise exc => do* emit (error idx (exn_str exc)) in ret false
    end in
  do* emit (progressTotal (batch_progress idx total)) in
  ret counted_ok.

(** [for idx, job in enumerate(self._jobs)] *)
Fixpoint per_item_loop (total idx : nat) (jobs : list JobSpec)
    (ok failed : nat) : M (nat * nat) :=
  match jobs with
  | [] => ret (ok, failed)
  | job :: rest =>
      let* cancelled := is_cancelled in
      if cancelled then ret (ok, failed)
      else
        let* counted_ok := process_job total idx job in
        if counted_ok
        then per_item_loop total (S idx) rest (S ok) failed
        else per_item_loop total (S idx) rest ok (S failed)
  end.

Definition run_per_item (start : Q) (jobs : list JobSpec) : M unit :=
  let total := length jobs in
  let* '(ok, failed) := per_item_loop total 0 jobs 0%nat 0%nat in
  emit_finished start total ok failed.

Definition run (jobs : list JobSpec) : M unit :=
  let* start := perf_counter E in
  if merged_mode jobs
  then
    match image_jobs jobs with
    | first :: _ => run_merged start jobs first
    | [] => run_per_item start jobs
    end
  else run_per_item start jobs.

End Worker.

(** * A reference environment

    Codecs that decide from the content of a file: a file holding
    [corrupt] cannot be decoded; a PDF has one page per character of its
    content and a page renders when its character is [g]. *)

Module Ref.

Definition readable (files : FS) (p : Path) : bool :=
  match files !! p with
  | Some c => negb (String.eqb c "corrupt")
  | None => false
  end.

Fixpoint page_flags (s : string) : list bool :=
  match s with
  | EmptyString => []
  | String c s' => Ascii.eqb c "g" :: page_flags s'
  end.

Definition env (flag : nat -> bool) : Env := {|
  Image := string;
  Doc := list bool;
  Page := bool;
  Pixmap := unit;
  Image_open files p :=
    if readable files p then Ret (default EmptyString (files !! p))
    else Raise (Failure "cannot identify image file");
  exif_transpose im := Ret im;
  Image_convert_RGB im := Ret im;
  Image_save im p fmt params files := (Ret tt, <[p := im]> files);
  img2pdf_convert paths layout files :=
    if forallb (readable files) paths then Ret "%PDF"
    else Raise (Failure "cannot read input image");
  open_wb_error files p := None;
  fitz_open files p :=
    if readable files p then Ret (page_flags (default EmptyString (files !! p)))
    else Raise (Failure "cannot open document");
  page_count d := Z.of_nat (length d);
  load_page d i :=
    match d !! Z.to_nat i with
    | Some b => Ret b
    | None => Raise (Failure "page not in document")
    end;
  get_pixmap pg zoom alpha :=
    if pg then Ret tt else Raise (Failure "cannot render page");
  Pixmap_save pix p files := (Ret tt, <[p := "pixels"]> files);
  cancel_flag := flag;
  perf_counter_at n := inject_Z (Z.of_nat n);
|}.

(** Nobody cancels. *)
Definition quiet : Env := env (fun _ => false).

Definition job (input : Path) (m : Mode) (pattern : string)
    (policy : OverwritePolicy) (range : string) : JobSpec := {|
  input_path := input;
  mode := m;
  output_dir := "out";
  naming_pattern := pattern;
  overwrite_policy := policy;
  preserve_exif_orientation := true;
  quality := 90;
  dpi := 200;
  page_range := range;
  page_size := "Auto";
  fit_mode := "Fit";
  margins_mm := 0;
|}.

Definition files : FS :=
  <["in/a.heic" := "img"]> (<["in/bad.heic" := "corrupt"]>
  (<["in/b.png" := "corrupt"]> (<["in/c.png" := "png"]>
  (<["in/d.pdf" := "gbg"]> ∅)))).

Definition world (f : FS) : World :=
  {| fs := f; log := []; polls := 0; clock := 0 |}.

End Ref.

(** * Notions used by the properties *)

Local Open Scope list_scope.

Arguments pdf_layout : simpl never.
Arguments _resolve_collision : simpl never.
Arguments path_exists : simpl never.
Arguments jpg_png_out_path : simpl never.
Arguments separate_pdf_out_path : simpl never.
Arguments pdf_page_out_path : simpl never.
Arguments merged_output_path : simpl never.
Arguments selected_pages : simpl never.
Arguments zoom_of_dpi : simpl never.
Arguments page_error : simpl never.
Arguments path_name : simpl never.
Arguments batch_progress : simpl never.
Arguments page_progress : simpl never.

(** ** Reports in the log *)

(** The events that report on a job or on the run: completions,
    defects and the summary.  Progress and status events are not
    reports. *)
Definition is_report (ev : Event) : bool :=
  match ev with
  | itemDone _ _ | error _ _ | finished _ => true
  | _ => false
  end.

Definition reports (l : list Event) : list Event := List.filter is_report l.

(** The row a completion or defect event is about. *)
Definition completion_row (ev : Event) : option nat :=
  match ev with
  | itemDone row _ | error row _ => Some row
  | _ => None
  end.

Definition completion_rows (l : list Event) : list nat := omap completion_row l.

Definition summary_of (ev : Event) : option WorkerSummary :=
  match ev with
  | finished s => Some s
  | _ => None
  end.

Definition summaries (l : list Event) : list WorkerSummary := omap summary_of l.

(** A computation that emits no report, whatever else it does. *)
Definition quiet {A} (m : M A) : Prop :=
  forall w o w', m w = (o, w') -> reports (log w') = reports (log w).

Definition quiet_progress (cb : option ProgressCallback) : Prop :=
  forall f, cb = Some f -> forall p, quiet (f p).

Definition quiet_cancelled (cb : option CancelledCallback) : Prop :=
  forall f, cb = Some f -> quiet f.

(** ** The result invariant *)

Definition result_invariant (r : ConversionResult) : Prop :=
  success r = true -> errors r = [].

(** ** Merging into one PDF *)


(** ** Page selection *)


(** ** The pages of a PDF job *)

(** What the page loop of [_pdf_to_images] goes through, page by page:
    the loop ends with the list, or when the flag is found set;
    otherwise the page is attempted, with outcome [o], progress is
    reported, and the loop goes on, whatever [o] is.  The trace lists
    the attempted pages with their outcomes. *)
Inductive page_steps (E : Env) (job : JobSpec) (fmt : ImageFormat)
    (doc : Doc E) (zoom : Q) (on_progress : option ProgressCallback)
    (is_cancelled : option CancelledCallback) (n_pages : nat)
    : nat -> list Z -> World -> list (Z * Outcome Path) -> World -> Prop :=
| steps_done idx w :
    page_steps E job fmt doc zoom on_progress is_cancelled n_pages
               idx [] w [] w
| steps_cancelled idx page_no rest w w1 :
    call_cancelled is_cancelled w = (Ret true, w1) ->
    page_steps E job fmt doc zoom on_progress is_cancelled n_pages
               idx (page_no :: rest) w [] w1
| steps_page idx page_no rest w w1 o w2 w3 tr w4 :
    call_cancelled is_cancelled w = (Ret false, w1) ->
    pdf_page E job fmt doc zoom page_no w1 = (o, w2) ->
    call_progress on_progress (page_progress idx n_pages) w2 = (Ret tt, w3) ->
    page_steps E job fmt doc zoom on_progress is_cancelled n_pages
               (S idx) rest w3 tr w4 ->
    page_steps E job fmt doc zoom on_progress is_cancelled n_pages
               idx (page_no :: rest) w ((page_no, o) :: tr) w4.

Definition saved_page (step : Z * Outcome Path) : option Path :=
  match snd step with
  | Ret out_path => Some out_path
  | Raise _ => None
  end.

Definition failed_page (step : Z * Outcome Path) : option string :=
  match snd step with
  | Ret _ => None
  | Raise exc => Some (page_error (fst step) exc)
  end.

(** The paths of the pages that succeeded, and one message per page
    that failed, both in page order. *)
Definition saved_pages (tr : list (Z * Outcome Path)) : list Path :=
  omap saved_page tr.

Definition failed_pages (tr : list (Z * Outcome Path)) : list string :=
  omap failed_page tr.

(** ** The Skip policy *)



(** The result the worker makes up in the skip branch of the merged
    mode. *)
Definition merged_skip_result (output_path : Path) : ConversionResult :=
  {| success := true; outputs := [output_path]; errors := [];
     elapsed_s := 0%Q; pages := 0 |}.

(** The rows of the image jobs, counting from [idx]. *)
Fixpoint image_rows (idx : nat) (jobs : list JobSpec) : list nat :=
  match jobs with
  | [] => []
  | j :: rest =>
      if is_image_file (input_path j) then idx :: image_rows (S idx) rest
      else image_rows (S idx) rest
  end.

(** ** Runs of the worker *)



(** The run is cancelled after [k] jobs: the flag is read unset before
    each of the next [k] jobs, which are processed, and set before the
    job after them. *)
Inductive cancelled_after (E : Env) (total : nat)
    : nat -> list JobSpec -> World -> nat -> Prop :=
| cancelled_now idx job rest w w1 :
    is_cancelled E w = (Ret true, w1) ->
    cancelled_after E total idx (job :: rest) w 0
| cancelled_later idx job rest w w1 counted_ok w2 k :
    is_cancelled E w = (Ret false, w1) ->
    process_job E total idx job w1 = (Ret counted_ok, w2) ->
    cancelled_after E total (S idx) rest w2 k ->
    cancelled_after E total idx (job :: rest) w (S k).

(** ** Text without a slash *)

Definition no_slash (s : string) : Prop :=
  Forall (fun c => c <> "/"%char) (list_ascii_of_string s).


(** ** Ends of a text *)

(** The last character of a text, if any. *)
Fixpoint last_char (s : string) : option ascii :=
  match s with
  | EmptyString => None
  | String c EmptyString => Some c
  | String _ s' => last_char s'
  end.

(** The first character of a text, if any. *)
Definition first_char (s : string) : option ascii :=
  match s with
  | EmptyString => None
  | String c _ => Some c
  end.

(** ** Callbacks that write no file *)

(** The progress callback, if any, leaves the files as they are. *)
Definition keeps_files (cb : option ProgressCallback) : Prop :=
  forall f, cb = Some f -> forall p w o w', f p w = (o, w') -> fs w' = fs w.

(** * Properties *)

(** ** Text and paths *)

(** *** Strings *)

Lemma str_app_cons c s t : (String c s ++ t)%string = String c (s ++ t)%string.
Proof. reflexivity. Qed.

Lemma str_app_assoc s t u : ((s ++ t) ++ u)%string = (s ++ (t ++ u))%string.
Proof. induction s as [|c s IH]; [done |]. by rewrite !str_app_cons, IH. Qed.

Lemma str_length_app s t :
  String.length (s ++ t)%string = (String.length s + String.length t)%nat.
Proof. induction s as [|c s IH]; [done |]. rewrite str_app_cons. simpl. by rewrite IH. Qed.

Lemma str_app_inv_tail s1 s2 t : (s1 ++ t)%string = (s2 ++ t)%string -> s1 = s2.
Proof.
  revert s2. induction s1 as [|c s1 IH]; intros [|d s2] H.
  - done.
  - apply (f_equal String.length) in H.
    rewrite !str_length_app in H. simpl in H. lia.
  - apply (f_equal String.length) in H.
    rewrite !str_length_app in H. simpl in H. lia.
  - rewrite !str_app_cons in H. injection H as -> H. f_equal. by apply IH.
Qed.

Lemma no_slash_nil : no_slash EmptyString.
Proof. constructor. Qed.

Lemma no_slash_cons c s : no_slash (String c s) <-> c <> "/"%char /\ no_slash s.
Proof.
  unfold no_slash. simpl. split.
  - intros H. by inversion H.
  - intros [Hc Hs]. by constructor.
Qed.

Lemma no_slash_app s t : no_slash (s ++ t)%string <-> no_slash s /\ no_slash t.
Proof.
  induction s as [|c s IH].
  - split; [intros H; split; [apply no_slash_nil | done] | by intros [_ H]].
  - rewrite str_app_cons, !no_slash_cons, IH. tauto.
Qed.

(** *** split *)

Lemma split_nonempty sep s : Py.split sep s <> [].
Proof.
  destruct s as [|c s]; simpl; [done |].
  destruct (Ascii.eqb c sep); [done |]. by destruct (Py.split sep s).
Qed.

Lemma split_no_slash s : Forall no_slash (Py.split "/" s).
Proof.
  induction s as [|c s IH]; simpl.
  - constructor; [apply no_slash_nil | constructor].
  - destruct (Ascii.eqb_spec c "/") as [-> | Hne].
    + constructor; [apply no_slash_nil | done].
    + destruct (Py.split "/" s) as [|w ws] eqn:Hsp;
        [by destruct (split_nonempty "/" s) |].
      inversion IH; subst. constructor; [| done].
      apply no_slash_cons. done.
Qed.

Lemma split_of_no_slash s : no_slash s -> Py.split "/" s = [s].
Proof.
  induction s as [|c s IH]; intros H; [done |].
  apply no_slash_cons in H as [Hc Hs]. simpl.
  destruct (Ascii.eqb_spec c "/") as [-> | _]; [done |]. by rewrite IH.
Qed.

(** *** Names, stems and suffixes *)

Lemma path_name_no_slash p : no_slash (path_name p).
Proof.
  unfold path_name, path_comps.
  assert (Forall no_slash (List.filter is_component (Py.split "/" p))) as H.
  { apply Forall_forall. intros x Hx%list_elem_of_In%filter_In.
    destruct Hx as [Hx _]. apply list_elem_of_In in Hx.
    by eapply (proj1 (Forall_forall _ _) (split_no_slash p)). }
  induction H as [|x l Hx Hl IH]; simpl; [apply no_slash_nil |].
  destruct l; [done | apply IH].
Qed.

Lemma rsplit_once_app sep s a b :
  rsplit_once sep s = Some (a, b) -> s = (a ++ String sep b)%string.
Proof.
  revert a b. induction s as [|c s IH]; intros a b; simpl; [done |].
  destruct (rsplit_once sep s) as [[a' b']|].
  - intros [= <- <-]. rewrite str_app_cons. f_equal. by apply IH.
  - destruct (Ascii.eqb_spec c sep) as [-> | _]; [| done].
    by intros [= <- <-].
Qed.

Lemma rsplit_once_no_slash s a b :
  no_slash s -> rsplit_once "." s = Some (a, b) -> no_slash a /\ no_slash b.
Proof.
  intros Hs Hsplit. apply rsplit_once_app in Hsplit. subst s.
  apply no_slash_app in Hs as [Ha Hb]. split; [done |].
  by apply no_slash_cons in Hb as [_ Hb].
Qed.

Lemma path_stem_no_slash p : no_slash (path_stem p).
Proof.
  unfold path_stem. pose proof (path_name_no_slash p) as Hn.
  destruct (rsplit_once "." (path_name p)) as [[a b]|] eqn:Hsplit; [| done].
  destruct (rsplit_once_no_slash _ _ _ Hn Hsplit) as [Ha Hb].
  destruct a; [done |]. by destruct b.
Qed.

Lemma path_suffix_no_slash p : no_slash (path_suffix p).
Proof.
  unfold path_suffix. pose proof (path_name_no_slash p) as Hn.
  destruct (rsplit_once "." (path_name p)) as [[a b]|] eqn:Hsplit;
    [| apply no_slash_nil].
  destruct (rsplit_once_no_slash _ _ _ Hn Hsplit) as [Ha Hb].
  destruct a; [apply no_slash_nil |]. destruct b; [apply no_slash_nil |].
  apply no_slash_cons. split; [done | exact Hb].
Qed.

(** *** Decimal numerals *)

Lemma pretty_N_char_no_slash x : pretty_N_char x <> "/"%char.
Proof. unfold pretty_N_char. by repeat case_match. Qed.

Lemma pretty_N_go_no_slash x s : no_slash s -> no_slash (pretty_N_go x s).
Proof.
  revert s. induction (N.lt_wf_0 x) as [x _ IH]; intros s Hs.
  assert (x = 0 \/ 0 < x)%N as [-> | Hpos] by lia.
  - by rewrite pretty_N_go_0.
  - rewrite pretty_N_go_step by done. apply IH.
    + by apply N.div_lt.
    + apply no_slash_cons. split; [apply pretty_N_char_no_slash | done].
Qed.

Lemma py_str_no_slash n : no_slash (Py.str n).
Proof.
  unfold Py.str, pretty, pretty_Z.
  assert (forall p : positive, no_slash (pretty p)) as Hpos.
  { intros p. unfold pretty, pretty_positive, pretty, pretty_N.
    case_decide; [done |]. apply pretty_N_go_no_slash, no_slash_nil. }
  destruct n as [|p|p].
  - apply no_slash_cons. split; [done | apply no_slash_nil].
  - apply Hpos.
  - change (no_slash (String "-" (pretty p))).
    apply no_slash_cons. split; [done | apply Hpos].
Qed.

(** *** Joining a directory and one component *)

Lemma concat_snoc cs :
  exists pre, forall seg,
    String.concat "/" (cs ++ [seg]) = (pre ++ seg)%string.
Proof.
  induction cs as [|x cs [pre IH]].
  - by exists EmptyString.
  - exists (x ++ "/" ++ pre)%string. intros seg.
    change ((x :: cs) ++ [seg]) with (x :: (cs ++ [seg])).
    destruct (cs ++ [seg]) as [|y l] eqn:Hl; [by destruct cs |].
    change (String.concat "/" (x :: y :: l))
      with (x ++ "/" ++ String.concat "/" (y :: l))%string.
    rewrite <- Hl, IH. by rewrite !str_app_assoc.
Qed.

Lemma path_str_snoc root cs :
  exists pre, forall seg, path_str root (cs ++ [seg]) = (pre ++ seg)%string.
Proof.
  destruct (concat_snoc cs) as [pre Hpre].
  exists (root ++ pre)%string. intros seg. unfold path_str.
  destruct (cs ++ [seg]) as [|y l] eqn:Hl; [by destruct cs |].
  by rewrite <- Hl, Hpre, str_app_assoc.
Qed.

Lemma path_join_relative d c s :
  c <> "/"%char ->
  path_join d (String c s)
  = path_str (path_root d) (path_comps d ++ path_comps (String c s)).
Proof.
  intros Hc. unfold path_join.
  destruct c as [[] [] [] [] [] [] [] []]; try reflexivity. done.
Qed.

Lemma path_join_component d :
  exists pre, forall seg,
    no_slash seg -> is_component seg = true ->
    path_join d seg = (pre ++ seg)%string.
Proof.
  destruct (path_str_snoc (path_root d) (path_comps d)) as [pre Hpre].
  exists pre. intros seg Hseg Hcomp.
  destruct seg as [|c s]; [done |].
  apply no_slash_cons in Hseg as Hc. destruct Hc as [Hc Hs].
  rewrite path_join_relative by done.
  unfold path_comps at 2. rewrite (split_of_no_slash _ Hseg). simpl.
  rewrite Hcomp. apply Hpre.
Qed.

(** *** ensure_unique_path finds a free name *)

Lemma is_component_with_underscore stem t :
  is_component (stem ++ String "_" t)%string = true.
Proof.
  destruct stem as [|c [|d s]]; [reflexivity | ..];
    unfold is_component; rewrite !str_app_cons; simpl;
    by destruct (Ascii.eqb c ".").
Qed.

Lemma unique_candidate_inj parent stem suffix i j :
  no_slash stem -> no_slash suffix ->
  unique_candidate parent stem suffix i = unique_candidate parent stem suffix j ->
  i = j.
Proof.
  intros Hstem Hsuffix. unfold unique_candidate.
  destruct (path_join_component parent) as [pre Hpre].
  rewrite !Hpre.
  - intros H.
    apply (inj (String.app _)), (inj (String.app _)) in H.
    change ((String "_" EmptyString ++ ?s)%string) with (String "_" s) in H.
    injection H as H.
    apply str_app_inv_tail, (inj pretty) in H. lia.
  - repeat (apply no_slash_app; split); auto using py_str_no_slash.
    apply no_slash_cons. split; [done | apply no_slash_nil].
  - apply is_component_with_underscore.
  - repeat (apply no_slash_app; split); auto using py_str_no_slash.
    apply no_slash_cons. split; [done | apply no_slash_nil].
  - apply is_component_with_underscore.
Qed.

Lemma unique_search_none files parent stem suffix fuel :
  forall idx,
    unique_search files parent stem suffix fuel idx = None ->
    forall k, (k < fuel)%nat ->
      path_exists files (unique_candidate parent stem suffix (idx + k)) = true.
Proof.
  induction fuel as [|fuel IH]; intros idx H k Hk; [lia |].
  simpl in H.
  destruct (path_exists files (unique_candidate parent stem suffix idx)) eqn:Hex;
    simpl in H; [| done].
  destruct k as [|k]; [by rewrite Nat.add_0_r |].
  replace (idx + S k)%nat with (S idx + k)%nat by lia.
  apply IH; [done | lia].
Qed.

Lemma unique_search_free files parent stem suffix fuel :
  forall idx p,
    unique_search files parent stem suffix fuel idx = Some p ->
    path_exists files p = false.
Proof.
  induction fuel as [|fuel IH]; intros idx p H; [done |].
  simpl in H.
  destruct (path_exists files (unique_candidate parent stem suffix idx)) eqn:Hex.
  - simpl in H. by eapply IH.
  - simpl in H. by injection H as <-.
Qed.

(** One step more than there are files is enough for the loop of
    [ensure_unique_path]: the candidates are pairwise distinct, so they
    cannot all be taken. *)
Lemma unique_search_finds (files : FS) parent stem suffix idx :
  no_slash stem -> no_slash suffix ->
  exists p, unique_search files parent stem suffix (S (size files)) idx = Some p.
Proof.
  intros Hstem Hsuffix.
  destruct (unique_search files parent stem suffix (S (size files)) idx)
    as [p|] eqn:Hsearch; [by exists p | exfalso].
  pose proof (unique_search_none _ _ _ _ _ _ Hsearch) as Htaken.
  set (cands := (fun k => unique_candidate parent stem suffix (idx + k))
                  <$> seq 0 (S (size files))).
  assert (NoDup cands) as Hnodup.
  { apply NoDup_fmap_2_strong; [| apply NoDup_seq].
    intros x y _ _ Heq. apply unique_candidate_inj in Heq; [lia | done..]. }
  assert (list_to_set cands ⊆ dom files) as Hsub.
  { intros c Hc. apply elem_of_list_to_set, list_elem_of_fmap in Hc.
    destruct Hc as (k & -> & Hk). apply elem_of_seq in Hk.
    specialize (Htaken k ltac:(lia)). unfold path_exists in Htaken.
    apply bool_decide_eq_true in Htaken. by apply elem_of_dom. }
  apply subseteq_size in Hsub.
  rewrite size_list_to_set, size_dom in Hsub by done.
  unfold cands in Hsub. rewrite length_fmap, length_seq in Hsub. lia.
Qed.

(** The path [ensure_unique_path] returns is free. *)
Lemma ensure_unique_path_free files path :
  path_exists files (ensure_unique_path files path) = false.
Proof.
  unfold ensure_unique_path.
  destruct (path_exists files path) eqn:Hex; cbn [negb]; [| done].
  destruct (unique_search_finds files (path_parent path) (path_stem path)
              (path_suffix path) 1 (path_stem_no_slash path)
              (path_suffix_no_slash path)) as [p Hp].
  rewrite Hp. simpl. by eapply unique_search_free.
Qed.

(** *** Collapsing dashes *)

Lemma replace_dashes_cons c s :
  Py.replace "--" "-" (String c s)
  = if String.prefix "--" (String c s)
    then String "-" (Py.replace_from "--" "-" 1 s)
    else String c (Py.replace "--" "-" s).
Proof. reflexivity. Qed.

Lemma prefix_dashes s :
  String.prefix "--" s = true -> exists t, s = String "-" (String "-" t).
Proof.
  intros H. apply prefix_correct in H.
  destruct s as [|c [|d t]]; simpl in H; try discriminate H.
  injection H as -> -> _. by exists t.
Qed.

Lemma replace_dashes_length n :
  forall s, (String.length s <= n)%nat ->
    (String.length (Py.replace "--" "-" s) <= String.length s)%nat
    /\ (Py.contains "--" s = true ->
        (String.length (Py.replace "--" "-" s) < String.length s)%nat).
Proof.
  induction n as [|n IH]; intros [|c s] Hlen; simpl in Hlen; try lia.
  - split; [reflexivity | discriminate].
  - split; [reflexivity | discriminate].
  - rewrite replace_dashes_cons.
    change (Py.contains "--" (String c s))
      with (String.prefix "--" (String c s) || Py.contains "--" s).
    destruct (String.prefix "--" (String c s)) eqn:Hpre.
    + apply prefix_dashes in Hpre as [t [= -> ->]].
      change (Py.replace_from "--" "-" 1 (String "-" t))
        with (Py.replace "--" "-" t).
      destruct (IH t) as [Hle _]; [simpl in Hlen; lia |].
      cbn [String.length]. split; [lia | intros _; lia].
    + destruct (IH s) as [Hle Hlt]; [lia |].
      cbn [String.length orb]. split; [lia |].
      intros Hc. specialize (Hlt Hc). lia.
Qed.

(** The fuel of [collapse_dashes] is enough: no double dash is left. *)
Lemma collapse_dashes_done fuel :
  forall out, (String.length out <= fuel)%nat ->
    Py.contains "--" (collapse_dashes fuel out) = false.
Proof.
  induction fuel as [|fuel IH]; intros out Hlen; simpl.
  - by destruct out; [| simpl in Hlen; lia].
  - destruct (Py.contains "--" out) eqn:Hc; [| done].
    apply IH.
    destruct (replace_dashes_length (String.length out) out) as [_ Hlt]; [lia |].
    specialize (Hlt Hc).
    change (Py.replace_from "--" "-" 0 out) with (Py.replace "--" "-" out).
    lia.
Qed.

(** ** parse_page_range *)

Lemma dedupe_pages_NoDup max_pages pages :
  forall (seen : gset Z) ordered,
    NoDup ordered -> (forall n, n ∈ ordered -> n ∈ seen) ->
    NoDup (dedupe_pages max_pages pages seen ordered).
Proof.
  induction pages as [|n rest IH]; intros seen ordered Hnd Hseen; simpl; [done |].
  case_bool_decide as Hin; [by apply IH |].
  destruct (truthy max_pages && (default 0 max_pages <? n)); [by apply IH |].
  apply IH.
  - apply NoDup_app. repeat split; [done | | apply NoDup_singleton].
    intros x Hx ->%list_elem_of_singleton. by apply Hin, Hseen.
  - intros x [Hx | ->%list_elem_of_singleton]%elem_of_app; set_solver.
Qed.

Lemma dedupe_pages_bound m pages :
  m <> 0 ->
  forall (seen : gset Z) ordered,
    Forall (fun n => n <= m) ordered ->
    Forall (fun n => n <= m) (dedupe_pages (Some m) pages seen ordered).
Proof.
  intros Hm. induction pages as [|n rest IH]; intros seen ordered Hb; simpl;
    [done |].
  case_bool_decide; [by apply IH |].
  destruct (Z.eqb_spec m 0) as [| _]; [done |]. simpl.
  destruct (Z.ltb_spec m n); [by apply IH |].
  apply IH, Forall_app. split; [done |]. by constructor.
Qed.

Lemma py_range_NoDup a b : NoDup (py_range a b).
Proof.
  unfold py_range. apply NoDup_fmap_2_strong; [| apply NoDup_seq].
  intros x y _ _ H. lia.
Qed.

Lemma py_range_bound a b : Forall (fun n => a <= n < b) (py_range a b).
Proof.
  unfold py_range. apply Forall_forall. intros n Hn.
  apply list_elem_of_fmap in Hn as (i & -> & Hi). apply elem_of_seq in Hi. lia.
Qed.

(** The part of C3 the code does meet: the returned pages are pairwise
    distinct and none exceeds [m]. *)
Lemma parse_page_range_distinct_and_bounded page_range m pages :
  0 < m ->
  parse_page_range page_range (Some m) = Ret pages ->
  NoDup pages /\ Forall (fun n => n <= m) pages.
Proof.
  intros Hm. unfold parse_page_range.
  destruct page_range as [|c s].
  - simpl. destruct (Z.eqb_spec m 0) as [| _]; [lia |]. simpl.
    unfold list_range. destruct (_ <? _); [done |]. intros [= <-].
    split; [apply py_range_NoDup |].
    eapply Forall_impl; [apply py_range_bound |]. intros x Hx. simpl in *. lia.
  - destruct (parse_parts _ _) as [l|e]; simpl; [| done]. intros [= <-].
    split.
    + apply dedupe_pages_NoDup; [constructor | by intros n Hn%elem_of_nil].
    + apply dedupe_pages_bound; [lia | constructor].
Qed.

(** C3: [parse_page_range("1-3,5,2", 5)] is [[1, 2, 3, 5]], as the
    claim says. *)
Lemma parse_page_range_example :
  parse_page_range "1-3,5,2" (Some 5) = Ret [1; 2; 3; 5].
Proof. vm_compute. reflexivity. Qed.

(** C3: the claim puts every returned page within [[1, m]], and so does
    the docstring of [parse_page_range]; on the range [3-0] with five
    pages the function returns page [0].  The lower end is clamped
    before the two ends are swapped, not after. *)
Theorem parse_page_range_returns_page_zero :
  parse_page_range "3-0" (Some 5) = Ret [0; 1; 2; 3].
Proof. vm_compute. reflexivity. Qed.

(** ** expand_naming_pattern *)

(** C9: the claim collapses every run of underscores to one; the
    function replaces [__] once, from the left, so a run of three is
    left as two, while runs of dashes are replaced until none is left. *)
Theorem expand_naming_pattern_keeps_double_underscore :
  let ctx := {| nc_input_path := "in/photo.jpg"; nc_mode := "m";
                nc_index := None; nc_page := None |} in
  expand_naming_pattern "{name}_{index}_{page}_{mode}" ctx = "photo__m"
  /\ expand_naming_pattern "a___b" ctx = "a__b"
  /\ expand_naming_pattern "a---b" ctx = "a-b".
Proof. vm_compute. repeat split; reflexivity. Qed.

(** ** convert_job and exceptions *)

(** C1: the claim lets no exception leave [convert_job].  On a PDF job
    whose page range spans more pages than a list can hold,
    [parse_page_range] raises [OverflowError] from [list(range(...))];
    it catches [ValueError] only, and [_pdf_to_images] runs it under a
    [try] that has a [finally] clause and no handler, so the exception
    reaches the caller of [convert_job]. *)
Theorem convert_job_propagates_overflow :
  let job := Ref.job "in/d.pdf" PDF_TO_JPG "{name}_{page}" Overwrite
                     "1-9223372036854775808" in
  fst (convert_job Ref.quiet job None None (Ref.world Ref.files))
  = Raise (OverflowError "Python int too large to convert to C ssize_t").
Proof. vm_compute. reflexivity. Qed.

(** ** Computations that emit no report *)

Lemma reports_app l1 l2 : reports (l1 ++ l2) = reports l1 ++ reports l2.
Proof. apply List.filter_app. Qed.

Lemma quiet_ret {A} (a : A) : quiet (ret a).
Proof. intros w o w' H. by injection H as <- <-. Qed.

Lemma quiet_raise {A} e : quiet (@raise A e).
Proof. intros w o w' H. by injection H as <- <-. Qed.

Lemma quiet_lift {A} (o : Outcome A) : quiet (lift o).
Proof. intros w o' w' H. by injection H as <- <-. Qed.

Lemma quiet_bind {A B} (m : M A) (k : A -> M B) :
  quiet m -> (forall a, quiet (k a)) -> quiet (bind m k).
Proof.
  intros Hm Hk w o w'. unfold bind.
  destruct (m w) as [[a|e] w1] eqn:Hrun; intros H.
  - rewrite (Hk a _ _ _ H). eauto.
  - injection H as <- <-. eauto.
Qed.

Lemma quiet_attempt {A} (m : M A) : quiet m -> quiet (attempt m).
Proof.
  intros Hm w o w'. unfold attempt.
  destruct (m w) as [o1 w1] eqn:Hrun. intros H. injection H as <- <-. eauto.
Qed.

Lemma quiet_get_fs : quiet get_fs.
Proof. intros w o w' H. by injection H as <- <-. Qed.

Lemma quiet_put_fs f : quiet (put_fs f).
Proof. intros w o w' H. by injection H as <- <-. Qed.

Lemma quiet_on_fs {A} (f : FS -> Outcome A * FS) : quiet (on_fs f).
Proof.
  intros w o w'. unfold on_fs. destruct (f (fs w)). intros H.
  by injection H as <- <-.
Qed.

Lemma quiet_perf_counter E : quiet (perf_counter E).
Proof. intros w o w' H. by injection H as <- <-. Qed.

Lemma quiet_is_cancelled E : quiet (is_cancelled E).
Proof. intros w o w' H. by injection H as <- <-. Qed.

Lemma quiet_emit ev : is_report ev = false -> quiet (emit ev).
Proof.
  intros Hev w o w' H. injection H as <- <-. simpl.
  rewrite reports_app. simpl. rewrite Hev. apply app_nil_r.
Qed.

Lemma quiet_result_at E start s o e p : quiet (result_at E start s o e p).
Proof. apply quiet_bind; [apply quiet_perf_counter | intros; apply quiet_ret]. Qed.

Lemma quiet_call_progress cb p : quiet_progress cb -> quiet (call_progress cb p).
Proof. destruct cb; simpl; [eauto | intros; apply quiet_ret]. Qed.

Lemma quiet_call_cancelled cb : quiet_cancelled cb -> quiet (call_cancelled cb).
Proof. destruct cb; simpl; [eauto | intros; apply quiet_ret]. Qed.

Ltac quiet_step :=
  match goal with
  | |- quiet (bind _ _) => apply quiet_bind; [| intros]
  | |- quiet (attempt _) => apply quiet_attempt
  | |- quiet (ret _) => apply quiet_ret
  | |- quiet (raise _) => apply quiet_raise
  | |- quiet (lift _) => apply quiet_lift
  | |- quiet get_fs => apply quiet_get_fs
  | |- quiet (put_fs _) => apply quiet_put_fs
  | |- quiet (on_fs _) => apply quiet_on_fs
  | |- quiet (perf_counter _) => apply quiet_perf_counter
  | |- quiet (is_cancelled _) => apply quiet_is_cancelled
  | |- quiet (result_at _ _ _ _ _ _) => apply quiet_result_at
  | |- quiet (call_progress _ _) => apply quiet_call_progress; assumption
  | |- quiet (call_cancelled _) => apply quiet_call_cancelled; assumption
  | |- quiet (emit _) => apply quiet_emit; reflexivity
  | |- quiet (match ?x with _ => _ end) => destruct x
  end.

Ltac quiet_auto := repeat quiet_step.

Section Quiet.

Variable E : Env.

Lemma quiet_write_pdf path inputs layout : quiet (write_pdf E path inputs layout).
Proof. unfold write_pdf. quiet_auto. Qed.

Lemma quiet_to_jpg_png job t cb1 cb2 :
  quiet_progress cb1 -> quiet (_to_jpg_png E job t cb1 cb2).
Proof. intros. unfold _to_jpg_png, to_jpg_png_body. quiet_auto. Qed.


Lemma quiet_separate job cb :
  quiet_progress cb -> quiet (_images_to_pdf_separate E job cb).
Proof.
  intros. unfold _images_to_pdf_separate, images_to_pdf_separate_body.
  quiet_auto; apply quiet_write_pdf.
Qed.

Lemma quiet_pdf_page job fmt doc zoom n : quiet (pdf_page E job fmt doc zoom n).
Proof. unfold pdf_page. quiet_auto. Qed.

Lemma quiet_pdf_pages_loop job fmt doc zoom cb1 cb2 n pages :
  quiet_progress cb1 -> quiet_cancelled cb2 ->
  forall idx outs errs,
    quiet (pdf_pages_loop E job fmt doc zoom cb1 cb2 n idx pages outs errs).
Proof.
  intros H1 H2. induction pages as [|page_no rest IH]; intros idx outs errs; simpl.
  - apply quiet_ret.
  - quiet_auto; try apply quiet_pdf_page; apply IH.
Qed.

Lemma quiet_pdf_to_images job fmt cb1 cb2 :
  quiet_progress cb1 -> quiet_cancelled cb2 ->
  quiet (_pdf_to_images E job fmt cb1 cb2).
Proof.
  intros. unfold _pdf_to_images. quiet_auto.
  all: try by apply quiet_pdf_pages_loop.
Qed.

Lemma quiet_convert_job job cb1 cb2 :
  quiet_progress cb1 -> quiet_cancelled cb2 ->
  quiet (convert_job E job cb1 cb2).
Proof.
  intros. unfold convert_job.
  repeat case_match;
    auto using quiet_to_jpg_png, quiet_separate, quiet_pdf_to_images, quiet_ret.
Qed.

Lemma quiet_worker_progress idx : quiet_progress (Some (on_progress_of idx)).
Proof.
  intros f [= <-] p. unfold on_progress_of. by apply quiet_emit.
Qed.

Lemma quiet_worker_cancelled : quiet_cancelled (Some (is_cancelled E)).
Proof. intros f [= <-]. apply quiet_is_cancelled. Qed.

End Quiet.

(** ** The result invariant *)

Ltac munfold :=
  cbv [bind ret raise attempt lift get_fs put_fs on_fs emit result_at
       perf_counter call_progress call_cancelled] in *.

(** Equations between outcomes, pairs and variables, and nothing that
    would unfold a definition. *)
Ltac minv :=
  repeat match goal with
  | H : (_, _) = (_, _) |- _ => injection H as ? ?
  | H : Ret _ = Ret _ |- _ => injection H as ?
  | H : Raise _ = Raise _ |- _ => injection H as ?
  | H : Ret _ = Raise _ |- _ => discriminate H
  | H : Raise _ = Ret _ |- _ => discriminate H
  | H : Skipped _ = Skipped _ |- _ => injection H as ?
  | H : Saved _ = Saved _ |- _ => injection H as ?
  | H : Skipped _ = Saved _ |- _ => discriminate H
  | H : Saved _ = Skipped _ |- _ => discriminate H
  | H : ?x = _ |- _ => is_var x; subst x
  | H : _ = ?x |- _ => is_var x; subst x
  end.

Ltac mcases := repeat (case_match; minv).

Section Invariant.

Variable E : Env.

Lemma to_jpg_png_invariant job t cb1 cb2 w r w' :
  _to_jpg_png E job t cb1 cb2 w = (Ret r, w') -> result_invariant r.
Proof.
  unfold _to_jpg_png, result_invariant. munfold.
  intros H Hs. mcases; done.
Qed.

Lemma single_pdf_returns inputs out ps fm mm w :
  exists r w', convert_images_to_single_pdf E inputs out ps fm mm w = (Ret r, w').
Proof.
  unfold convert_images_to_single_pdf. munfold.
  mcases; eauto.
Qed.

Lemma single_pdf_invariant inputs out ps fm mm w r w' :
  convert_images_to_single_pdf E inputs out ps fm mm w = (Ret r, w') ->
  result_invariant r.
Proof.
  unfold convert_images_to_single_pdf, result_invariant. munfold.
  intros H Hs. mcases; done.
Qed.

Lemma separate_invariant job cb w r w' :
  _images_to_pdf_separate E job cb w = (Ret r, w') -> result_invariant r.
Proof.
  unfold _images_to_pdf_separate, result_invariant. munfold.
  intros H Hs. mcases; done.
Qed.

Lemma pdf_to_images_invariant job fmt cb1 cb2 w r w' :
  _pdf_to_images E job fmt cb1 cb2 w = (Ret r, w') -> result_invariant r.
Proof.
  unfold _pdf_to_images, result_invariant. munfold.
  intros H Hs. mcases; try done.
  by apply bool_decide_eq_true in Hs.
Qed.

Lemma convert_job_invariant job cb1 cb2 w r w' :
  convert_job E job cb1 cb2 w = (Ret r, w') -> result_invariant r.
Proof.
  unfold convert_job. intros H.
  destruct (_ && _) in H; [by eapply to_jpg_png_invariant |].
  destruct (_ && _) in H; [by eapply separate_invariant |].
  destruct (_ && _) in H; [by eapply pdf_to_images_invariant |].
  injection H as <- <-. done.
Qed.

End Invariant.

(** C4: a result with [success = true] has no errors, for [convert_job]
    in every mode and for [convert_images_to_single_pdf] (which always
    returns); the converse fails on a PDF whose second page does not
    render: the result is a failure that lists the pages that were
    written. *)
Theorem success_implies_no_errors :
  (forall E job cb1 cb2 w r w',
      convert_job E job cb1 cb2 w = (Ret r, w') -> result_invariant r)
  /\ (forall E inputs out ps fm mm w,
      exists r w',
        convert_images_to_single_pdf E inputs out ps fm mm w = (Ret r, w')
        /\ result_invariant r)
  /\ (exists r w',
        convert_job Ref.quiet
          (Ref.job "in/d.pdf" PDF_TO_PNG "{name}_{page}" Overwrite EmptyString)
          None None (Ref.world Ref.files) = (Ret r, w')
        /\ success r = false
        /\ errors r = ["Page 2: cannot render page"]
        /\ outputs r = ["out/d_1.png"; "out/d_3.png"]).
Proof.
  split; [| split].
  - intros. eapply convert_job_invariant; eauto.
  - intros. destruct (single_pdf_returns E inputs out ps fm mm w) as (r & w' & H).
    exists r, w'. split; [done |]. eapply single_pdf_invariant; eauto.
  - do 2 eexists. split; [vm_compute; reflexivity |]. by vm_compute.
Qed.

Lemma success_implies_no_errors_witness :
  errors {| success := true; outputs := ["out/a.jpg"]; errors := [];
            elapsed_s := 1%Q; pages := 1 |} = [].
Proof.
  refine (proj1 success_implies_no_errors Ref.quiet
            (Ref.job "in/a.heic" HEIC_TO_JPG "{name}" Overwrite EmptyString)
            None None (Ref.world Ref.files) _ _ _ _).
  - vm_compute. reflexivity.
  - reflexivity.
Defined.

(** ** Merging into one PDF *)



(** ** Page selection *)

Lemma list_range_fits a b :
  b - a <= PY_SSIZE_T_MAX -> list_range a b = Ret (py_range a b).
Proof.
  intros H. unfold list_range.
  destruct (Z.ltb_spec PY_SSIZE_T_MAX (b - a)); [lia | reflexivity].
Qed.

Lemma length_py_range a b : length (py_range a b) = Z.to_nat (b - a).
Proof. unfold py_range. by rewrite length_map, length_seq. Qed.



Section PageRange.

Variable E : Env.



End PageRange.


(** ** The pages of a PDF job *)

Section Pages.

Variable E : Env.

Lemma pdf_pages_loop_trace job fmt doc zoom cb1 cb2 n idx pages w tr w' :
  page_steps E job fmt doc zoom cb1 cb2 n idx pages w tr w' ->
  forall outs errs,
    pdf_pages_loop E job fmt doc zoom cb1 cb2 n idx pages outs errs w
    = (Ret (outs ++ saved_pages tr, errs ++ failed_pages tr), w').
Proof.
  induction 1 as [idx w | idx page_no rest w w1 Hc
                 | idx page_no rest w w1 o w2 w3 tr w4 Hc Hpage Hprog _ IH];
    intros outs errs; simpl.
  - unfold ret. by rewrite !app_nil_r.
  - unfold bind. rewrite Hc. unfold ret. by rewrite !app_nil_r.
  - unfold bind, attempt. rewrite Hc, Hpage.
    destruct o as [out_path|exc]; rewrite Hprog, IH;
      unfold saved_pages, failed_pages; cbn [omap list_omap saved_page failed_page snd fst];
      by rewrite <- ?app_assoc.
Qed.

(** The attempted pages are the first of the selection, and all of it
    when there is no cancellation callback. *)
Lemma page_steps_prefix job fmt doc zoom cb1 cb2 n idx pages w tr w' :
  page_steps E job fmt doc zoom cb1 cb2 n idx pages w tr w' ->
  tr.*1 `prefix_of` pages.
Proof.
  induction 1; simpl.
  - done.
  - apply prefix_nil.
  - by apply prefix_cons.
Qed.

Lemma page_steps_all_pages job fmt doc zoom cb1 n idx pages w tr w' :
  page_steps E job fmt doc zoom cb1 None n idx pages w tr w' ->
  tr.*1 = pages.
Proof.
  induction 1 as [| idx page_no rest w w1 Hc |]; simpl.
  - done.
  - discriminate Hc.
  - by f_equal.
Qed.

Lemma failed_pages_nonempty tr page_no exc :
  (page_no, Raise exc) ∈ tr -> failed_pages tr <> [].
Proof.
  intros Hin Hnil.
  assert (page_error page_no exc ∈ failed_pages tr) as Hmsg.
  { apply list_elem_of_omap. by exists (page_no, Raise exc). }
  rewrite Hnil in Hmsg. by apply elem_of_nil in Hmsg.
Qed.

(** C7: in a PDF-to-image job the failure of a page does not end the
    page loop.  Let [tr] be the pages attempted, with their outcomes;
    it goes on after a failed page, up to the end of the selection or
    to the cancellation.  If some page of [tr] failed, the job returns
    [success = false], [errors] holds the message [Page n: ...] of each
    failed page and [outputs] the path of each page that succeeded. *)
Theorem page_failure_does_not_stop_the_job
    (job : JobSpec) (fmt : ImageFormat)
    (on_progress : option ProgressCallback)
    (is_cancelled : option CancelledCallback)
    (w w' : World) (doc : Doc E) (pages_list : list Z) (zoom : Q)
    (tr : list (Z * Outcome Path)) (page_no : Z) (exc : Exn) :
  fitz_open E (fs w) (input_path job) = Ret doc ->
  selected_pages job (page_count E doc) = Ret pages_list ->
  zoom_of_dpi (dpi job) = Ret zoom ->
  page_steps E job fmt doc zoom on_progress is_cancelled (length pages_list)
             1 pages_list (tick w) tr w' ->
  (page_no, Raise exc) ∈ tr ->
  exists r,
    _pdf_to_images E job fmt on_progress is_cancelled w = (Ret r, tick w')
    /\ success r = false
    /\ errors r = failed_pages tr
    /\ outputs r = saved_pages tr
    /\ page_error page_no exc ∈ errors r
    /\ tr.*1 `prefix_of` pages_list
    /\ (is_cancelled = None -> tr.*1 = pages_list).
Proof.
  intros Hopen Hsel Hzoom Hsteps Hfail.
  unfold _pdf_to_images. munfold. cbn [fs tick].
  rewrite Hopen, Hsel, Hzoom.
  rewrite (pdf_pages_loop_trace _ _ _ _ _ _ _ _ _ _ _ _ Hsteps). simpl.
  eexists. split; [reflexivity |]. cbn [success errors outputs].
  repeat split.
  - apply bool_decide_eq_false. by eapply failed_pages_nonempty.
  - apply list_elem_of_omap. by exists (page_no, Raise exc).
  - by eapply page_steps_prefix.
  - intros ->. by eapply page_steps_all_pages.
Qed.

End Pages.

Lemma page_failure_does_not_stop_the_job_witness :
  exists r,
    _pdf_to_images Ref.quiet
      (Ref.job "in/d.pdf" PDF_TO_PNG "{name}_{page}" Overwrite EmptyString)
      PNG None None (Ref.world Ref.files)
    = (Ret r,
       tick (set_fs (<["out/d_3.png" := "pixels"]>
                       (<["out/d_1.png" := "pixels"]> Ref.files))
                    (tick (Ref.world Ref.files))))
    /\ success r = false
    /\ errors r = ["Page 2: cannot render page"]
    /\ outputs r = ["out/d_1.png"; "out/d_3.png"]
    /\ "Page 2: cannot render page" ∈ errors r
    /\ [1; 2; 3] `prefix_of` [1; 2; 3]
    /\ (@None CancelledCallback = None -> [1; 2; 3] = [1; 2; 3]).
Proof.
  apply (page_failure_does_not_stop_the_job Ref.quiet
           (Ref.job "in/d.pdf" PDF_TO_PNG "{name}_{page}" Overwrite EmptyString)
           PNG None None (Ref.world Ref.files) _ [true; false; true]
           [1; 2; 3] (Qmax 1 (200 / 72))
           [(1, Ret "out/d_1.png");
            (2, Raise (Failure "cannot render page"));
            (3, Ret "out/d_3.png")]
           2 (Failure "cannot render page")).
  - vm_compute. reflexivity.
  - vm_compute. reflexivity.
  - vm_compute. reflexivity.
  - eapply steps_page; [reflexivity | vm_compute; reflexivity | reflexivity |].
    eapply steps_page; [reflexivity | vm_compute; reflexivity | reflexivity |].
    eapply steps_page; [reflexivity | vm_compute; reflexivity | reflexivity |].
    apply steps_done.
  - apply elem_of_cons. right. apply elem_of_cons. by left.
Defined.

(** ** The Skip policy *)


Section SkipPolicy.

Variable E : Env.




End SkipPolicy.


(** ** Runs of the worker *)

Lemma completion_rows_app l1 l2 :
  completion_rows (l1 ++ l2) = completion_rows l1 ++ completion_rows l2.
Proof. apply omap_app. Qed.


Lemma length_image_rows idx jobs :
  length (image_rows idx jobs) = length (image_jobs jobs).
Proof.
  revert idx. induction jobs as [|j rest IH]; intros idx; simpl; [done |].
  destruct (is_image_file (input_path j)); simpl; by rewrite IH.
Qed.




Section WorkerLoops.

Variable E : Env.

Lemma mark_skipped_run total res jobs :
  forall idx w,
  exists w',
    mark_skipped total res idx jobs w = (Ret tt, w')
    /\ fs w' = fs w
    /\ reports (log w')
       = reports (log w) ++ map (fun i => itemDone i res) (image_rows idx jobs).
Proof.
  induction jobs as [|j rest IH]; intros idx w; simpl.
  - eexists. split; [reflexivity |]. by rewrite app_nil_r.
  - munfold. destruct (is_image_file (input_path j)); cbn [fst snd];
      match goal with
      | |- context [mark_skipped _ _ _ _ ?w1] =>
          destruct (IH (S idx) w1) as (w' & -> & Hfs & Hrep)
      end;
      exists w'; (split; [reflexivity |]); rewrite Hfs, Hrep;
      (split; [reflexivity |]); cbn [log add_event];
      rewrite !reports_app; simpl; by rewrite ?app_nil_r, <- ?app_assoc.
Qed.

Lemma mark_merged_run total res jobs :
  forall idx ok failed w,
  exists w' ok' failed',
    mark_merged total res idx jobs ok failed w = (Ret (ok', failed'), w')
    /\ fs w' = fs w
    /\ reports (log w')
       = reports (log w) ++ map (fun i => itemDone i res) (image_rows idx jobs)
    /\ (ok' + failed')%nat = (ok + failed + length (image_rows idx jobs))%nat.
Proof.
  induction jobs as [|j rest IH]; intros idx ok failed w; simpl.
  - do 3 eexists. split; [reflexivity |]. rewrite app_nil_r. repeat split. lia.
  - munfold. destruct (is_image_file (input_path j)); cbn [fst snd];
      match goal with
      | |- context [mark_merged _ _ _ _ ?ok1 ?failed1 ?w1] =>
          destruct (IH (S idx) ok1 failed1 w1)
            as (w' & ok' & failed' & -> & Hfs & Hrep & Hcount)
      end;
      exists w', ok', failed'; (split; [reflexivity |]); rewrite Hfs, Hrep;
      (split; [reflexivity |]); cbn [log add_event];
      rewrite !reports_app; simpl; rewrite ?app_nil_r, <- ?app_assoc;
      (split; [reflexivity |]); destruct (success res); simpl; lia.
Qed.

Lemma emit_finished_run start total ok failed w :
  emit_finished E start total ok failed w
  = (Ret tt,
     add_event (finished {| total := total; ok := ok; failed := failed;
                            ws_elapsed_s :=
                              (perf_counter_at E (clock w) - start)%Q |})
               (tick w)).
Proof. reflexivity. Qed.

(** A job that has started is reported exactly once, as completed or
    as defective, on its own row. *)
Lemma process_job_reports total idx job w :
  exists counted_ok w' ev,
    process_job E total idx job w = (Ret counted_ok, w')
    /\ reports (log w') = reports (log w) ++ [ev]
    /\ completion_row ev = Some idx
    /\ summary_of ev = None.
Proof.
  unfold process_job. munfold.
  destruct (convert_job E job (Some (on_progress_of idx))
              (Some (is_cancelled E))
              (add_event (status ("Processing " ++ path_name (input_path job) ++ "…")%string) w))
    as [[res|exc] w1] eqn:Hrun;
    pose proof (quiet_convert_job E job _ _ (quiet_worker_progress idx)
                  (quiet_worker_cancelled E) _ _ _ Hrun) as Hq;
    cbn [log add_event] in Hq; rewrite reports_app in Hq; simpl in Hq;
    rewrite app_nil_r in Hq.
  - exists (success res). eexists. exists (itemDone idx res).
    split; [reflexivity |]. cbn [log add_event].
    rewrite !reports_app, Hq. simpl. by rewrite app_nil_r.
  - exists false. eexists. exists (error idx (exn_str exc)).
    split; [reflexivity |]. cbn [log add_event].
    rewrite !reports_app, Hq. simpl. by rewrite app_nil_r.
Qed.

End WorkerLoops.

Section WorkerRuns.

Variable E : Env.

Lemma per_item_loop_cancelled total idx jobs w k :
  cancelled_after E total idx jobs w k ->
  forall ok failed,
  exists ok' failed' w' new,
    per_item_loop E total idx jobs ok failed w = (Ret (ok', failed'), w')
    /\ reports (log w') = reports (log w) ++ new
    /\ completion_rows new = seq idx k
    /\ summaries new = []
    /\ (ok' + failed')%nat = (ok + failed + k)%nat
    /\ (k < length jobs)%nat.
Proof.
  induction 1 as [idx job rest w w1 Hc
                 | idx job rest w w1 counted_ok w2 k Hc Hjob _ IH];
    intros ok failed; simpl; unfold bind; rewrite Hc.
  - exists ok, failed, w1, []. split; [reflexivity |].
    rewrite (quiet_is_cancelled E _ _ _ Hc), app_nil_r.
    repeat split; lia.
  - rewrite Hjob.
    destruct (process_job_reports E total idx job w1)
      as (s & w2' & ev & Hjob' & Hrep & Hrow & Hsum).
    rewrite Hjob in Hjob'. injection Hjob' as <- <-.
    rewrite (quiet_is_cancelled E _ _ _ Hc) in Hrep.
    destruct counted_ok;
      [ destruct (IH (S ok) failed)
          as (ok' & failed' & w' & new & -> & Hrep' & Hrows & Hsums & Hcount & Hlt)
      | destruct (IH ok (S failed))
          as (ok' & failed' & w' & new & -> & Hrep' & Hrows & Hsums & Hcount & Hlt) ];
      exists ok', failed', w', (ev :: new);
      (split; [reflexivity |]);
      rewrite Hrep', Hrep, <- app_assoc;
      (split; [reflexivity |]);
      unfold completion_rows, summaries in *; cbn [omap list_omap];
      rewrite Hrow, Hsum; fold (omap completion_row new);
      fold (omap summary_of new); rewrite Hrows, Hsums;
      repeat split; lia.
Qed.

(** C6: a per-item run of [n] jobs that is cancelled after [k] jobs
    returns, and what it reports is one completion or defect event for
    each of the rows [0 .. k-1], in this order, followed by one
    summary: nothing is reported for a row from [k] on, the summary has
    [total = n] and [ok + failed = k]. *)
Theorem cancelled_run_reports_started_jobs_only
    (jobs : list JobSpec) (w : World) (k : nat) :
  merged_mode jobs = false \/ image_jobs jobs = [] ->
  cancelled_after E (length jobs) 0 jobs (tick w) k ->
  exists w' new summary,
    run E jobs w = (Ret tt, w')
    /\ reports (log w') = reports (log w) ++ new ++ [finished summary]
    /\ completion_rows new = seq 0 k
    /\ summaries new = []
    /\ (forall i, (k <= i)%nat ->
          i ∉ completion_rows (new ++ [finished summary]))
    /\ total summary = length jobs
    /\ (ok summary + failed summary)%nat = k
    /\ (k < length jobs)%nat.
Proof.
  intros Hmode Hcancel.
  destruct (per_item_loop_cancelled _ _ _ _ _ Hcancel 0%nat 0%nat)
    as (ok' & failed' & w1 & new & Hloop & Hrep & Hrows & Hsums & Hcount & Hlt).
  assert (run E jobs w = run_per_item E (perf_counter_at E (clock w)) jobs (tick w))
    as ->.
  { unfold run, bind, perf_counter.
    destruct Hmode as [-> | ->]; [done | by destruct (merged_mode jobs)]. }
  unfold run_per_item, bind. rewrite Hloop, emit_finished_run.
  do 3 eexists. split; [reflexivity |]. cbn [log add_event tick].
  rewrite reports_app, Hrep, <- app_assoc. simpl.
  repeat split; try done.
  intros i Hi. rewrite completion_rows_app, Hrows. simpl. rewrite app_nil_r.
  rewrite elem_of_seq. lia.
Qed.


End WorkerRuns.

(** C6, at an instance: three HEIC jobs, the flag set after the first
    one has completed. *)
Lemma cancelled_run_reports_started_jobs_only_witness :
  let E := Ref.env (fun n => (1 <=? n)%nat) in
  let jobs := [Ref.job "in/a.heic" HEIC_TO_JPG "{name}" Overwrite EmptyString;
               Ref.job "in/bad.heic" HEIC_TO_JPG "{name}" Overwrite EmptyString;
               Ref.job "in/a.heic" HEIC_TO_PNG "{name}" Overwrite EmptyString] in
  exists w' new summary,
    run E jobs (Ref.world Ref.files) = (Ret tt, w')
    /\ reports (log w')
       = reports (log (Ref.world Ref.files)) ++ new ++ [finished summary]
    /\ completion_rows new = seq 0 1
    /\ summaries new = []
    /\ (forall i, (1 <= i)%nat ->
          i ∉ completion_rows (new ++ [finished summary]))
    /\ total summary = length jobs
    /\ (ok summary + failed summary)%nat = 1%nat
    /\ (1 < length jobs)%nat.
Proof.
  cbv zeta.
  apply (cancelled_run_reports_started_jobs_only
           (Ref.env (fun n => (1 <=? n)%nat))
           [Ref.job "in/a.heic" HEIC_TO_JPG "{name}" Overwrite EmptyString;
            Ref.job "in/bad.heic" HEIC_TO_JPG "{name}" Overwrite EmptyString;
            Ref.job "in/a.heic" HEIC_TO_PNG "{name}" Overwrite EmptyString]
           (Ref.world Ref.files) 1).
  - left. reflexivity.
  - eapply cancelled_later; [reflexivity | vm_compute; reflexivity |].
    eapply cancelled_now. reflexivity.
Defined.






(** * Further properties of the code *)

(** ** Collision-free names *)

Lemma unique_search_first files parent stem suffix fuel :
  forall idx p,
    unique_search files parent stem suffix fuel idx = Some p ->
    exists k, (idx <= k)%nat
      /\ p = unique_candidate parent stem suffix k
      /\ path_exists files p = false
      /\ forall i, (idx <= i < k)%nat ->
           path_exists files (unique_candidate parent stem suffix i) = true.
Proof.
  induction fuel as [|fuel IH]; intros idx p H; [done |].
  simpl in H.
  destruct (path_exists files (unique_candidate parent stem suffix idx)) eqn:Hex;
    simpl in H.
  - destruct (IH _ _ H) as (k & Hk & -> & Hfree & Hbelow).
    exists k. repeat split; [lia | done |].
    intros i Hi. destruct (decide (i = idx)) as [-> | Hne]; [done |].
    apply Hbelow. lia.
  - injection H as <-. exists idx. repeat split; [lia | done |]. intros i Hi. lia.
Qed.

(** X1: the path [ensure_unique_path] returns never exists, and it is
    the path asked for whenever that one is free. *)
Theorem ensure_unique_path_never_collides (files : FS) (path : Path) :
  path_exists files (ensure_unique_path files path) = false
  /\ (if path_exists files path then ensure_unique_path files path <> path
      else ensure_unique_path files path = path).
Proof.
  split; [apply ensure_unique_path_free |].
  destruct (path_exists files path) eqn:Hex.
  - intros Heq. pose proof (ensure_unique_path_free files path) as Hfree.
    rewrite Heq in Hfree. congruence.
  - unfold ensure_unique_path. by rewrite Hex.
Qed.

(** X2: when the path is taken, [ensure_unique_path] returns the
    candidate [stem_k.suffix] with the least [k >= 1] that is free:
    every candidate with a smaller counter exists. *)
Theorem ensure_unique_path_takes_lowest_counter (files : FS) (path : Path) :
  path_exists files path = true ->
  exists k, (1 <= k)%nat
    /\ ensure_unique_path files path
       = unique_candidate (path_parent path) (path_stem path)
                          (path_suffix path) k
    /\ path_exists files (ensure_unique_path files path) = false
    /\ forall i, (1 <= i < k)%nat ->
         path_exists files
           (unique_candidate (path_parent path) (path_stem path)
                             (path_suffix path) i) = true.
Proof.
  intros Hex. unfold ensure_unique_path. rewrite Hex. cbn [negb].
  destruct (unique_search_finds files (path_parent path) (path_stem path)
              (path_suffix path) 1 (path_stem_no_slash path)
              (path_suffix_no_slash path)) as [p Hp].
  rewrite Hp. simpl.
  destruct (unique_search_first _ _ _ _ _ _ _ Hp) as (k & Hk & -> & Hfree & Hlow).
  by exists k.
Qed.

Lemma ensure_unique_path_takes_lowest_counter_witness :
  exists k, (1 <= k)%nat
    /\ ensure_unique_path
         (<["d/out.png" := "a"]> (<["d/out_1.png" := "b"]> ∅)) "d/out.png"
       = unique_candidate (path_parent "d/out.png") (path_stem "d/out.png")
                          (path_suffix "d/out.png") k
    /\ path_exists (<["d/out.png" := "a"]> (<["d/out_1.png" := "b"]> ∅))
         (ensure_unique_path
            (<["d/out.png" := "a"]> (<["d/out_1.png" := "b"]> ∅)) "d/out.png")
       = false
    /\ forall i, (1 <= i < k)%nat ->
         path_exists (<["d/out.png" := "a"]> (<["d/out_1.png" := "b"]> ∅))
           (unique_candidate (path_parent "d/out.png") (path_stem "d/out.png")
                             (path_suffix "d/out.png") i) = true.
Proof.
  apply ensure_unique_path_takes_lowest_counter. vm_compute. reflexivity.
Defined.

(** X3: [_resolve_collision] renames under [Auto-rename] only, and then
    to a path that does not exist; under [Skip] and [Overwrite] it
    returns the path it was given, existing or not. *)
Theorem resolve_collision_renames_only_under_auto_rename
    (files : FS) (path : Path) (policy : OverwritePolicy) :
  match policy with
  | Auto_rename =>
      path_exists files (_resolve_collision files path policy) = false
  | Skip | Overwrite => _resolve_collision files path policy = path
  end.
Proof.
  unfold _resolve_collision. destruct policy; simpl.
  - destruct (path_exists files path) eqn:Hex; [done |].
    unfold ensure_unique_path. by rewrite Hex.
  - apply ensure_unique_path_free.
  - done.
Qed.

(** ** Page ranges *)

Lemma dedupe_pages_zero_count pages :
  forall seen ordered,
    dedupe_pages (Some 0) pages seen ordered
    = dedupe_pages None pages seen ordered.
Proof.
  induction pages as [|n rest IH]; intros seen ordered; simpl; [done |].
  case_bool_decide; by rewrite !IH.
Qed.

(** X4: a page count of zero is no page count: nothing is dropped for
    being too large, and the empty range selects no page. *)
Theorem parse_page_range_zero_count_is_no_count (page_range : string) :
  parse_page_range page_range (Some 0) = parse_page_range page_range None.
Proof.
  unfold parse_page_range. destruct page_range as [|c s]; [done |].
  destruct (parse_parts _ _) as [pages|e]; simpl; [| done].
  by rewrite dedupe_pages_zero_count.
Qed.

(** X5: whatever the range and the page count, the pages returned are
    pairwise distinct, and none exceeds a page count other than zero. *)
Theorem parse_page_range_distinct_within_count
    (page_range : string) (max_pages : option Z) (pages : list Z) :
  parse_page_range page_range max_pages = Ret pages ->
  NoDup pages
  /\ forall m, max_pages = Some m -> m <> 0 -> Forall (fun n => n <= m) pages.
Proof.
  unfold parse_page_range. destruct page_range as [|c s].
  - destruct (truthy max_pages) eqn:Ht.
    + unfold list_range. destruct (_ <? _); [done |]. intros [= <-].
      split; [apply py_range_NoDup |]. intros m -> Hm. simpl.
      eapply Forall_impl; [apply py_range_bound |]. intros x Hx. simpl in *. lia.
    + intros [= <-]. split; [constructor |]. intros; constructor.
  - destruct (parse_parts _ _) as [l|e]; simpl; [| done]. intros [= <-].
    split.
    + apply dedupe_pages_NoDup; [constructor | by intros n Hn%elem_of_nil].
    + intros m -> Hm. apply dedupe_pages_bound; [done | constructor].
Qed.

Lemma parse_page_range_distinct_within_count_witness :
  NoDup [2; 3; 4; 1]
  /\ forall m, Some 4 = Some m -> m <> 0 -> Forall (fun n => n <= m) [2; 3; 4; 1].
Proof.
  apply (parse_page_range_distinct_within_count "4-2,1-3,9,x" (Some 4)).
  vm_compute. reflexivity.
Defined.

(** ** Stripping *)

Lemma lstrip_by_first P s c :
  first_char (Py.lstrip_by P s) = Some c -> P c = false.
Proof.
  induction s as [|d s IH]; simpl; [done |].
  destruct (P d) eqn:Hd; [done |]. simpl. by intros [= <-].
Qed.

Lemma rstrip_by_first P s c :
  first_char (Py.rstrip_by P s) = Some c -> first_char s = Some c.
Proof.
  destruct s as [|d s]; simpl; [done |].
  destruct (Py.rstrip_by P s); [destruct (P d) |]; simpl; done.
Qed.

Lemma rstrip_by_last P s c :
  last_char (Py.rstrip_by P s) = Some c -> P c = false.
Proof.
  induction s as [|d s IH]; simpl; [done |].
  destruct (Py.rstrip_by P s) as [|e r] eqn:Hr.
  - destruct (P d) eqn:Hd; simpl; [done |]. by intros [= <-].
  - change (last_char (String d (String e r))) with (last_char (String e r)).
    exact IH.
Qed.

Lemma strip_by_ends P s :
  (forall c, first_char (Py.strip_by P s) = Some c -> P c = false)
  /\ (forall c, last_char (Py.strip_by P s) = Some c -> P c = false).
Proof.
  unfold Py.strip_by. split; intros c H.
  - apply rstrip_by_first in H. by eapply lstrip_by_first.
  - by eapply rstrip_by_last.
Qed.

(** *** Occurrences survive no stripping *)

Lemma prefix_app sub a t :
  String.prefix sub a = true -> String.prefix sub (a ++ t)%string = true.
Proof.
  revert a. induction sub as [|x sub IH]; intros a H.
  - by destruct (a ++ t)%string.
  - destruct a as [|b a]; [done |]. rewrite str_app_cons.
    cbn [String.prefix] in *. destruct (ascii_dec x b); [by apply IH | done].
Qed.

Lemma contains_app_l sub a t :
  Py.contains sub a = true -> Py.contains sub (a ++ t)%string = true.
Proof.
  induction a as [|b a IH]; intros H.
  - cbn [Py.contains] in H. rewrite orb_false_r in H.
    apply (prefix_app _ _ t) in H. destruct (EmptyString ++ t)%string eqn:Ht;
      cbn [Py.contains]; by rewrite H.
  - rewrite str_app_cons. cbn [Py.contains] in *.
    apply orb_true_iff in H as [H | H].
    + apply (prefix_app _ _ t) in H. rewrite str_app_cons in H. by rewrite H.
    + rewrite (IH H). apply orb_true_r.
Qed.

Lemma rstrip_by_prefix P s : exists t, s = (Py.rstrip_by P s ++ t)%string.
Proof.
  induction s as [|d s [t IH]]; simpl; [by exists EmptyString |].
  destruct (Py.rstrip_by P s) as [|e r] eqn:Hr.
  - destruct (P d).
    + by exists (String d s).
    + exists t. rewrite IH at 1. reflexivity.
  - exists t. rewrite IH at 1. reflexivity.
Qed.

Lemma contains_lstrip_by sub P s :
  Py.contains sub (Py.lstrip_by P s) = true -> Py.contains sub s = true.
Proof.
  induction s as [|d s IH]; [done |]. cbn [Py.lstrip_by].
  destruct (P d); [| done]. intros H. cbn [Py.contains].
  rewrite (IH H). apply orb_true_r.
Qed.

Lemma contains_strip_by sub P s :
  Py.contains sub s = false -> Py.contains sub (Py.strip_by P s) = false.
Proof.
  intros Hs. unfold Py.strip_by.
  destruct (Py.contains sub (Py.rstrip_by P (Py.lstrip_by P s))) eqn:Hc; [| done].
  destruct (rstrip_by_prefix P (Py.lstrip_by P s)) as [t Ht].
  apply (contains_app_l _ _ t) in Hc. rewrite <- Ht in Hc.
  apply contains_lstrip_by in Hc. congruence.
Qed.

(** X6: whatever the pattern and the context, the name
    [expand_naming_pattern] returns holds no two dashes in a row, and
    neither begins nor ends with a blank, an underscore, a dash or a
    dot. *)
Theorem expand_naming_pattern_is_trimmed_and_dash_collapsed
    (pattern : string) (ctx : NamingContext) :
  Py.contains "--" (expand_naming_pattern pattern ctx) = false
  /\ (forall c, first_char (expand_naming_pattern pattern ctx) = Some c ->
        Py.mem_char c " _-." = false)
  /\ (forall c, last_char (expand_naming_pattern pattern ctx) = Some c ->
        Py.mem_char c " _-." = false).
Proof.
  unfold expand_naming_pattern. cbv zeta. unfold Py.strip_chars.
  split; [| apply strip_by_ends].
  apply contains_strip_by, collapse_dashes_done. lia.
Qed.

(** ** Sanitised file names *)

Lemma prefix_nil s : String.prefix EmptyString s = true.
Proof. by destruct s. Qed.

Lemma replace_char_cons ch c s :
  Py.replace (Py.str1 ch) "_" (String c s)
  = if ascii_dec ch c
    then String "_" (Py.replace (Py.str1 ch) "_" s)
    else String c (Py.replace (Py.str1 ch) "_" s).
Proof.
  unfold Py.replace, Py.str1. cbn [Py.replace_from String.prefix String.length].
  destruct (ascii_dec ch c); [| reflexivity]. by rewrite prefix_nil.
Qed.

Lemma replace_char_length ch s :
  String.length (Py.replace (Py.str1 ch) "_" s) = String.length s.
Proof.
  induction s as [|c s IH]; [done |]. rewrite replace_char_cons.
  destruct (ascii_dec ch c); cbn [String.length]; by rewrite IH.
Qed.

(** The characters of the result are underscores or characters of the
    argument other than the one replaced. *)
Lemma replace_char_chars ch s c :
  c ∈ list_ascii_of_string (Py.replace (Py.str1 ch) "_" s) ->
  c = "_"%char \/ (c ∈ list_ascii_of_string s /\ c <> ch).
Proof.
  induction s as [|d s IH]; [by intros ?%elem_of_nil |].
  rewrite replace_char_cons.
  destruct (ascii_dec ch d) as [-> | Hne]; cbn [list_ascii_of_string];
    intros [-> | Hc]%elem_of_cons.
  - by left.
  - destruct (IH Hc) as [-> | [Hin Hd]]; [by left | right].
    split; [apply elem_of_cons; by right | done].
  - right. split; [apply elem_of_cons; by left | done].
  - destruct (IH Hc) as [-> | [Hin Hd]]; [by left | right].
    split; [apply elem_of_cons; by right | done].
Qed.

Lemma sanitise_chars chars :
  forall s c,
    "_"%char ∉ chars ->
    c ∈ list_ascii_of_string
          (fold_left (fun safe_name ch => Py.replace (Py.str1 ch) "_" safe_name)
                     chars s) ->
    (c ∉ chars) /\ (c = "_"%char \/ c ∈ list_ascii_of_string s).
Proof.
  induction chars as [|ch chars IH]; intros s c Hus Hc; cbn [fold_left] in Hc.
  - split; [apply not_elem_of_nil | by right].
  - apply not_elem_of_cons in Hus as [Hne Hus].
    destruct (IH _ _ Hus Hc) as [Hnot [-> | Hin]].
    + split; [| by left]. apply not_elem_of_cons. by split.
    + destruct (replace_char_chars _ _ _ Hin) as [-> | [Hs Hch]].
      * split; [| by left]. apply not_elem_of_cons. by split.
      * split; [| by right]. apply not_elem_of_cons. by split.
Qed.

Lemma sanitise_length chars :
  forall s,
    String.length
      (fold_left (fun safe_name ch => Py.replace (Py.str1 ch) "_" safe_name)
                 chars s) = String.length s.
Proof.
  induction chars as [|ch chars IH]; intros s; cbn [fold_left]; [done |].
  by rewrite IH, replace_char_length.
Qed.

(** *** The name of a joined path *)

Lemma split_app_sep sep a b :
  Py.split sep (a ++ String sep b)%string = Py.split sep a ++ Py.split sep b.
Proof.
  induction a as [|c a IH].
  - change (EmptyString ++ String sep b)%string with (String sep b).
    cbn [Py.split]. by rewrite Ascii.eqb_refl.
  - rewrite str_app_cons. cbn [Py.split]. rewrite IH.
    destruct (Ascii.eqb c sep); [done |].
    destruct (Py.split sep a) as [|w ws] eqn:Hsp;
      [by destruct (split_nonempty sep a) | done].
Qed.

Lemma path_root_cases d :
  path_root d = EmptyString \/ path_root d = "/" \/ path_root d = "//".
Proof.
  destruct d as [|c1 d]; [by left |].
  destruct c1 as [[] [] [] [] [] [] [] []]; try (by left).
  destruct d as [|c2 d]; [by right; left |].
  destruct c2 as [[] [] [] [] [] [] [] []]; try (by right; left).
  destruct d as [|c3 d]; [by right; right |].
  destruct c3 as [[] [] [] [] [] [] [] []]; try (by right; right).
  by right; left.
Qed.

Lemma concat_snoc_sep c cs seg :
  String.concat "/" ((c :: cs) ++ [seg])
  = (String.concat "/" (c :: cs) ++ String "/" seg)%string.
Proof.
  revert c. induction cs as [|d cs IH]; intros c; [reflexivity |].
  change (String.concat "/" ((c :: d :: cs) ++ [seg]))
    with (c ++ "/" ++ String.concat "/" ((d :: cs) ++ [seg]))%string.
  rewrite IH.
  change (String.concat "/" (c :: d :: cs))
    with (c ++ "/" ++ String.concat "/" (d :: cs))%string.
  by rewrite !str_app_assoc.
Qed.

Lemma path_str_snoc_sep root cs seg :
  root = EmptyString \/ root = "/" \/ root = "//" ->
  path_str root (cs ++ [seg]) = seg
  \/ exists a, path_str root (cs ++ [seg]) = (a ++ String "/" seg)%string.
Proof.
  intros Hroot. destruct cs as [|c cs].
  - destruct Hroot as [-> | [-> | ->]]; [by left | right; by exists EmptyString |
      right; by exists "/"].
  - right. exists (root ++ String.concat "/" (c :: cs))%string.
    unfold path_str. change ((c :: cs) ++ [seg]) with (c :: (cs ++ [seg])).
    change (c :: (cs ++ [seg])) with ((c :: cs) ++ [seg]).
    destruct ((c :: cs) ++ [seg]) as [|y l] eqn:Hl; [done |].
    rewrite <- Hl, concat_snoc_sep. by rewrite str_app_assoc.
Qed.

Lemma path_name_join d seg :
  no_slash seg -> is_component seg = true ->
  path_name (path_join d seg) = seg.
Proof.
  intros Hseg Hcomp.
  assert (path_join d seg
          = path_str (path_root d) (path_comps d ++ [seg])) as ->.
  { destruct seg as [|c s]; [done |].
    apply no_slash_cons in Hseg as Hc. destruct Hc as [Hc _].
    rewrite path_join_relative by done.
    unfold path_comps at 2. rewrite (split_of_no_slash _ Hseg). simpl.
    by rewrite Hcomp. }
  set (cs := path_comps d). unfold path_name, path_comps.
  destruct (path_str_snoc_sep (path_root d) cs seg
              (path_root_cases d)) as [-> | [a ->]].
  - rewrite (split_of_no_slash _ Hseg). simpl. by rewrite Hcomp.
  - rewrite split_app_sep, (split_of_no_slash _ Hseg), List.filter_app.
    simpl. rewrite Hcomp. apply last_last.
Qed.

(** X7: the file [build_output_path] names lies in the given directory
    under a name that holds none of the characters forbidden in file
    names: the name is the sanitised text, as long as the text given,
    followed by the extension. *)
Theorem build_output_path_name_is_sanitised
    (directory : Path) (filename_no_ext extension : string) :
  no_slash extension ->
  (2 <= String.length extension)%nat ->
  exists safe_name,
    build_output_path directory filename_no_ext extension
    = path_join directory (safe_name ++ extension)%string
    /\ path_name (build_output_path directory filename_no_ext extension)
       = (safe_name ++ extension)%string
    /\ String.length safe_name = String.length filename_no_ext
    /\ forall c, c ∈ list_ascii_of_string safe_name ->
         (c ∉ FORBIDDEN_CHARS)
         /\ (c = "_"%char \/ c ∈ list_ascii_of_string filename_no_ext).
Proof.
  intros Hext Hlen. unfold build_output_path. cbv zeta.
  set (safe_name := fold_left _ FORBIDDEN_CHARS filename_no_ext).
  assert (forall c, c ∈ list_ascii_of_string safe_name ->
            (c ∉ FORBIDDEN_CHARS)
            /\ (c = "_"%char \/ c ∈ list_ascii_of_string filename_no_ext))
    as Hchars.
  { intros c Hc. apply (sanitise_chars FORBIDDEN_CHARS); [| exact Hc].
    vm_compute. intros H. repeat (apply elem_of_cons in H as [H | H]; [done |]).
    by apply elem_of_nil in H. }
  exists safe_name. split; [done |]. split; [| split; [apply sanitise_length | done]].
  apply path_name_join.
  - apply no_slash_app. split; [| done].
    apply Forall_forall. intros c Hc ->. destruct (Hchars _ Hc) as [Hnot _].
    apply Hnot. vm_compute. apply elem_of_cons. right. apply elem_of_cons. by left.
  - unfold is_component.
    destruct (safe_name ++ extension)%string as [|c [|c' s]] eqn:Hs; try done.
    + apply (f_equal String.length) in Hs. rewrite str_length_app in Hs.
      simpl in Hs. lia.
    + apply (f_equal String.length) in Hs. rewrite str_length_app in Hs.
      simpl in Hs. lia.
    + simpl. by destruct (Ascii.eqb c ".").
Qed.

Lemma build_output_path_name_is_sanitised_witness :
  exists safe_name,
    build_output_path "out" "a/b:c" ".jpg"
    = path_join "out" (safe_name ++ ".jpg")%string
    /\ path_name (build_output_path "out" "a/b:c" ".jpg")
       = (safe_name ++ ".jpg")%string
    /\ String.length safe_name = String.length "a/b:c"
    /\ forall c, c ∈ list_ascii_of_string safe_name ->
         (c ∉ FORBIDDEN_CHARS)
         /\ (c = "_"%char \/ c ∈ list_ascii_of_string "a/b:c").
Proof.
  apply build_output_path_name_is_sanitised.
  - repeat (apply no_slash_cons; split; [done |]). apply no_slash_nil.
  - simpl. lia.
Defined.

(** ** File kinds *)

(** X8: a path is supported exactly when it is a HEIC file, an image or
    a PDF, and it is at most one of the three. *)
Theorem file_kinds_partition_the_supported_files (path : Path) :
  is_supported_file path
  = is_heic_file path || is_image_file path || is_pdf_file path
  /\ is_heic_file path && is_image_file path = false
  /\ is_heic_file path && is_pdf_file path = false
  /\ is_image_file path && is_pdf_file path = false.
Proof.
  unfold is_supported_file, is_heic_file, is_image_file, is_pdf_file.
  set (s := Py.lower (path_suffix path)).
  unfold str_in, SUPPORTED_EXTS, IMAGE_EXTS, HEIC_EXTS. cbn [existsb].
  destruct (String.eqb_spec s ".heic") as [-> | _]; [by vm_compute |].
  destruct (String.eqb_spec s ".heif") as [-> | _]; [by vm_compute |].
  destruct (String.eqb_spec s ".jpg") as [-> | _]; [by vm_compute |].
  destruct (String.eqb_spec s ".jpeg") as [-> | _]; [by vm_compute |].
  destruct (String.eqb_spec s ".png") as [-> | _]; [by vm_compute |].
  destruct (String.eqb_spec s ".pdf") as [-> | _]; by vm_compute.
Qed.

(** ** dedupe_paths *)

Section Dedupe.

Variable resolve : Path -> Path.

Lemma dedupe_loop_app paths :
  forall seen unique,
    dedupe_loop resolve paths seen unique
    = unique ++ dedupe_loop resolve paths seen [].
Proof.
  induction paths as [|p rest IH]; intros seen unique; simpl.
  - by rewrite app_nil_r.
  - case_bool_decide; [apply IH |].
    rewrite (IH _ (unique ++ [p])), (IH _ [p]). by rewrite <- app_assoc.
Qed.

Lemma dedupe_loop_cons p rest seen :
  dedupe_loop resolve (p :: rest) seen []
  = if bool_decide (resolve p ∈ seen) then dedupe_loop resolve rest seen []
    else p :: dedupe_loop resolve rest ({[resolve p]} ∪ seen) [].
Proof. simpl. case_bool_decide; [done |]. by rewrite dedupe_loop_app. Qed.

Lemma dedupe_loop_spec paths :
  forall seen,
    dedupe_loop resolve paths seen [] `sublist_of` paths
    /\ NoDup (resolve <$> dedupe_loop resolve paths seen [])
    /\ (forall q, q ∈ dedupe_loop resolve paths seen [] -> resolve q ∉ seen)
    /\ (forall p, p ∈ paths ->
          resolve p ∈ seen
          \/ resolve p ∈ resolve <$> dedupe_loop resolve paths seen []).
Proof.
  induction paths as [|p rest IH]; intros seen.
  - simpl. repeat split; [apply sublist_nil | apply NoDup_nil_2 | |];
      by intros ? ?%elem_of_nil.
  - rewrite dedupe_loop_cons. case_bool_decide as Hin.
    + destruct (IH seen) as (Hsub & Hnd & Hout & Hcov).
      repeat split; [by apply sublist_cons | done | done |].
      intros q [-> | Hq]%elem_of_cons; [by left | by apply Hcov].
    + destruct (IH ({[resolve p]} ∪ seen)) as (Hsub & Hnd & Hout & Hcov).
      repeat split.
      * by apply sublist_skip.
      * rewrite fmap_cons. apply NoDup_cons. split; [| done].
        intros (q & Heq & Hq)%list_elem_of_fmap. apply Hout in Hq.
        rewrite <- Heq in Hq. apply Hq, elem_of_union. left.
        by apply elem_of_singleton.
      * intros q [-> | Hq]%elem_of_cons; [done |]. apply Hout in Hq.
        intros Hs. apply Hq, elem_of_union. by right.
      * intros q [-> | Hq]%elem_of_cons.
        -- right. rewrite fmap_cons. apply elem_of_cons. by left.
        -- destruct (Hcov _ Hq) as [Hs | Hr].
           ++ apply elem_of_union in Hs as [->%elem_of_singleton | Hs];
                [right | by left].
              rewrite fmap_cons. apply elem_of_cons. by left.
           ++ right. rewrite fmap_cons. apply elem_of_cons. by right.
Qed.

(** X9: [dedupe_paths] keeps the paths in their order, keeps no two
    paths that resolve to the same file, and keeps, for every path
    given, one that resolves to the same file. *)
Theorem dedupe_paths_keeps_one_path_per_file (paths : list Path) :
  dedupe_paths resolve paths `sublist_of` paths
  /\ NoDup (resolve <$> dedupe_paths resolve paths)
  /\ forall p, p ∈ paths ->
       resolve p ∈ resolve <$> dedupe_paths resolve paths.
Proof.
  unfold dedupe_paths.
  destruct (dedupe_loop_spec paths ∅) as (Hsub & Hnd & _ & Hcov).
  repeat split; [done | done |].
  intros p Hp. destruct (Hcov p Hp) as [H | H]; [set_solver | done].
Qed.

Lemma dedupe_loop_distinct paths :
  forall seen,
    NoDup (resolve <$> paths) ->
    (forall p, p ∈ paths -> resolve p ∉ seen) ->
    dedupe_loop resolve paths seen [] = paths.
Proof.
  induction paths as [|p rest IH]; intros seen Hnd Hout; [done |].
  rewrite dedupe_loop_cons. rewrite fmap_cons in Hnd.
  apply NoDup_cons in Hnd as [Hp Hnd].
  rewrite bool_decide_eq_false_2
    by (apply Hout, elem_of_cons; by left).
  f_equal. apply IH; [done |].
  intros q Hq Hin. apply elem_of_union in Hin as [Heq%elem_of_singleton | Hin].
  - apply Hp, list_elem_of_fmap. by exists q.
  - eapply Hout; [apply elem_of_cons; right; exact Hq | done].
Qed.

(** X10: the first path given is always kept, and deduplicating an
    already deduplicated list changes nothing. *)
Theorem dedupe_paths_is_idempotent (paths : list Path) :
  head (dedupe_paths resolve paths) = head paths
  /\ dedupe_paths resolve (dedupe_paths resolve paths)
     = dedupe_paths resolve paths.
Proof.
  split.
  - unfold dedupe_paths. destruct paths as [|p rest]; [done |].
    rewrite dedupe_loop_cons. by rewrite bool_decide_eq_false_2 by set_solver.
  - apply dedupe_loop_distinct; [| set_solver].
    by destruct (dedupe_loop_spec paths ∅) as (_ & Hnd & _).
Qed.

(** X11: paths that resolve to pairwise different files are all kept,
    in the order given. *)
Theorem dedupe_paths_keeps_different_files (paths : list Path) :
  NoDup (resolve <$> paths) -> dedupe_paths resolve paths = paths.
Proof. intros Hnd. apply dedupe_loop_distinct; [done | set_solver]. Qed.

End Dedupe.

Lemma dedupe_paths_keeps_different_files_witness :
  NoDup (Py.lower <$> ["a/x.png"; "A/y.png"; "b.png"])
  /\ dedupe_paths Py.lower ["a/x.png"; "A/y.png"; "b.png"]
     = ["a/x.png"; "A/y.png"; "b.png"].
Proof.
  assert (NoDup (Py.lower <$> ["a/x.png"; "A/y.png"; "b.png"])) as Hnd.
  { apply (bool_decide_unpack _). vm_compute. reflexivity. }
  split; [exact Hnd |].
  exact (dedupe_paths_keeps_different_files Py.lower _ Hnd).
Defined.

(** ** convert_job: what it returns, and when *)

Lemma unsupported_file_kinds path :
  is_supported_file path = false ->
  is_heic_file path = false /\ is_image_file path = false
  /\ is_pdf_file path = false.
Proof.
  unfold is_supported_file, is_heic_file, is_image_file, is_pdf_file.
  set (s := Py.lower (path_suffix path)).
  unfold str_in, SUPPORTED_EXTS, IMAGE_EXTS, HEIC_EXTS. cbn [existsb].
  destruct (String.eqb_spec s ".heic") as [-> | _]; [by vm_compute |].
  destruct (String.eqb_spec s ".heif") as [-> | _]; [by vm_compute |].
  destruct (String.eqb_spec s ".jpg") as [-> | _]; [by vm_compute |].
  destruct (String.eqb_spec s ".jpeg") as [-> | _]; [by vm_compute |].
  destruct (String.eqb_spec s ".png") as [-> | _]; [by vm_compute |].
  destruct (String.eqb_spec s ".pdf") as [-> | _]; by vm_compute.
Qed.

Lemma pdf_file_is_no_image path :
  is_pdf_file path = true ->
  is_heic_file path = false /\ is_image_file path = false.
Proof.
  unfold is_heic_file, is_image_file, is_pdf_file.
  intros ->%String.eqb_eq. by vm_compute.
Qed.

Lemma resolve_collision_free files path policy :
  policy <> Overwrite ->
  policy_eqb policy Skip
  && path_exists files (_resolve_collision files path policy) = false ->
  path_exists files (_resolve_collision files path policy) = false.
Proof.
  unfold _resolve_collision. intros Hpol.
  destruct policy; [| | done]; cbn [policy_eqb andb].
  - destruct (path_exists files path) eqn:Hex; [by rewrite Hex |].
    intros _. apply ensure_unique_path_free.
  - intros _. apply ensure_unique_path_free.
Qed.

(** The world apart from the clock. *)
Lemma fs_tick w : fs (tick w) = fs w.
Proof. reflexivity. Qed.

Section ConvertJob.

Variable E : Env.

Lemma to_jpg_png_returns job t cb1 cb2 w :
  exists r w', _to_jpg_png E job t cb1 cb2 w = (Ret r, w').
Proof. unfold _to_jpg_png. munfold. mcases; eauto. Qed.

Lemma separate_returns job cb w :
  exists r w', _images_to_pdf_separate E job cb w = (Ret r, w').
Proof. unfold _images_to_pdf_separate. munfold. mcases; eauto. Qed.

Lemma to_jpg_png_failure job t cb1 cb2 w r w' :
  _to_jpg_png E job t cb1 cb2 w = (Ret r, w') ->
  success r = false -> errors r <> [].
Proof. unfold _to_jpg_png. munfold. intros H Hs. mcases; done. Qed.

Lemma separate_failure job cb w r w' :
  _images_to_pdf_separate E job cb w = (Ret r, w') ->
  success r = false -> errors r <> [].
Proof. unfold _images_to_pdf_separate. munfold. intros H Hs. mcases; done. Qed.

Lemma pdf_to_images_failure job fmt cb1 cb2 w r w' :
  _pdf_to_images E job fmt cb1 cb2 w = (Ret r, w') ->
  success r = false -> errors r <> [].
Proof.
  unfold _pdf_to_images. munfold. intros H Hs. mcases; try done.
  by apply bool_decide_eq_false in Hs.
Qed.

(** X12: [convert_job] leaves the merged mode to the worker: in this
    mode, and for a file that is not supported, it returns the
    unsupported-combination failure at once: no file is read or
    written, no callback is called, the clock is not read. *)
Theorem convert_job_rejects_merged_mode_and_unsupported_files
    (job : JobSpec) (on_progress : option ProgressCallback)
    (is_cancelled : option CancelledCallback) (w : World) :
  mode job = IMAGES_TO_PDF_MERGED
  \/ is_supported_file (input_path job) = false ->
  convert_job E job on_progress is_cancelled w = (Ret unsupported, w).
Proof.
  intros H. unfold convert_job.
  destruct H as [-> | H]; [by rewrite !andb_false_r |].
  by destruct (unsupported_file_kinds _ H) as (-> & -> & ->).
Qed.

(** X13: outside the two PDF-to-image modes [convert_job] returns a
    result and raises nothing, whatever the codecs and the callbacks
    do. *)
Theorem convert_job_returns_outside_the_pdf_modes
    (job : JobSpec) (on_progress : option ProgressCallback)
    (is_cancelled : option CancelledCallback) (w : World) :
  mode job <> PDF_TO_JPG -> mode job <> PDF_TO_PNG ->
  exists r w', convert_job E job on_progress is_cancelled w = (Ret r, w').
Proof.
  intros Hj Hp. unfold convert_job.
  destruct (_ && _); [apply to_jpg_png_returns |].
  destruct (_ && _); [apply separate_returns |].
  replace (mode_eqb (mode job) PDF_TO_JPG || mode_eqb (mode job) PDF_TO_PNG)
    with false by (by destruct (mode job)).
  rewrite andb_false_r. by eexists _, _.
Qed.

(** X14: a result of [convert_job] with [success = false] carries at
    least one error message. *)
Theorem failure_carries_an_error
    (job : JobSpec) (on_progress : option ProgressCallback)
    (is_cancelled : option CancelledCallback) (w : World)
    (r : ConversionResult) (w' : World) :
  convert_job E job on_progress is_cancelled w = (Ret r, w') ->
  success r = false ->
  errors r <> [].
Proof.
  unfold convert_job. intros H.
  destruct (_ && _) in H; [by eapply to_jpg_png_failure |].
  destruct (_ && _) in H; [by eapply separate_failure |].
  destruct (_ && _) in H; [by eapply pdf_to_images_failure |].
  injection H as <- <-. done.
Qed.

(** X15: a HEIC job whose source cannot be opened fails with the
    message of the decoder, lists no output, and has done nothing but
    read the clock twice: no file is written, no callback is called. *)
Theorem unreadable_heic_source_fails_without_writing
    (job : JobSpec) (on_progress : option ProgressCallback)
    (is_cancelled : option CancelledCallback) (w : World) (exc : Exn) :
  is_heic_file (input_path job) = true ->
  mode job = HEIC_TO_JPG \/ mode job = HEIC_TO_PNG ->
  Image_open E (fs w) (input_path job) = Raise exc ->
  exists r,
    convert_job E job on_progress is_cancelled w = (Ret r, tick (tick w))
    /\ success r = false
    /\ outputs r = []
    /\ errors r = [exn_str exc]
    /\ pages r = 1.
Proof.
  intros Hheic Hmode Hopen. unfold convert_job. rewrite Hheic.
  replace (mode_eqb (mode job) HEIC_TO_JPG || mode_eqb (mode job) HEIC_TO_PNG)
    with true by (by destruct Hmode as [-> | ->]).
  cbn [andb]. unfold _to_jpg_png, to_jpg_png_body. munfold.
  rewrite fs_tick, Hopen. by eexists.
Qed.

(** X16: a PDF job whose document cannot be opened fails with the
    message of the reader, lists no output and no page, and has done
    nothing but read the clock twice. *)
Theorem unreadable_pdf_source_fails_without_writing
    (job : JobSpec) (on_progress : option ProgressCallback)
    (is_cancelled : option CancelledCallback) (w : World) (exc : Exn) :
  is_pdf_file (input_path job) = true ->
  mode job = PDF_TO_JPG \/ mode job = PDF_TO_PNG ->
  fitz_open E (fs w) (input_path job) = Raise exc ->
  exists r,
    convert_job E job on_progress is_cancelled w = (Ret r, tick (tick w))
    /\ success r = false
    /\ outputs r = []
    /\ errors r = [exn_str exc]
    /\ pages r = 0.
Proof.
  intros Hpdf Hmode Hopen. unfold convert_job.
  destruct (pdf_file_is_no_image _ Hpdf) as [-> ->]. rewrite Hpdf.
  replace (mode_eqb (mode job) PDF_TO_JPG || mode_eqb (mode job) PDF_TO_PNG)
    with true by (by destruct Hmode as [-> | ->]).
  cbn [andb]. unfold _pdf_to_images. munfold.
  rewrite fs_tick, Hopen. by eexists.
Qed.

End ConvertJob.

Lemma convert_job_returns_outside_the_pdf_modes_witness :
  exists r w',
    convert_job Ref.quiet
      (Ref.job "in/bad.heic" HEIC_TO_JPG "{name}" Overwrite EmptyString)
      None None (Ref.world Ref.files) = (Ret r, w').
Proof.
  by apply (convert_job_returns_outside_the_pdf_modes Ref.quiet
              (Ref.job "in/bad.heic" HEIC_TO_JPG "{name}" Overwrite EmptyString)
              None None (Ref.world Ref.files)).
Defined.

Lemma convert_job_rejects_merged_mode_and_unsupported_files_witness :
  convert_job Ref.quiet
    (Ref.job "in/c.png" IMAGES_TO_PDF_MERGED "{name}" Overwrite EmptyString)
    None None (Ref.world Ref.files)
  = (Ret unsupported, Ref.world Ref.files).
Proof.
  apply (convert_job_rejects_merged_mode_and_unsupported_files Ref.quiet
           (Ref.job "in/c.png" IMAGES_TO_PDF_MERGED "{name}" Overwrite
                    EmptyString)
           None None (Ref.world Ref.files)).
  left. reflexivity.
Defined.

Lemma unreadable_heic_source_fails_without_writing_witness :
  exists r,
    convert_job Ref.quiet
      (Ref.job "in/bad.heic" HEIC_TO_PNG "{name}" Skip EmptyString)
      None None (Ref.world Ref.files)
    = (Ret r, tick (tick (Ref.world Ref.files)))
    /\ success r = false
    /\ outputs r = []
    /\ errors r = [exn_str (Failure "cannot identify image file")]
    /\ pages r = 1.
Proof.
  apply (unreadable_heic_source_fails_without_writing Ref.quiet
           (Ref.job "in/bad.heic" HEIC_TO_PNG "{name}" Skip EmptyString)
           None None (Ref.world Ref.files)
           (Failure "cannot identify image file")).
  - reflexivity.
  - right. reflexivity.
  - reflexivity.
Defined.

Lemma failure_carries_an_error_witness :
  errors {| success := false; outputs := [];
            errors := ["cannot identify image file"];
            elapsed_s := 1%Q; pages := 1 |} <> [].
Proof.
  refine (failure_carries_an_error Ref.quiet
            (Ref.job "in/bad.heic" HEIC_TO_JPG "{name}" Overwrite EmptyString)
            None None (Ref.world Ref.files) _ _ _ _).
  - vm_compute. reflexivity.
  - reflexivity.
Defined.

Lemma unreadable_pdf_source_fails_without_writing_witness :
  exists r,
    convert_job Ref.quiet
      (Ref.job "in/none.pdf" PDF_TO_JPG "{name}" Overwrite "1-2")
      None None (Ref.world Ref.files)
    = (Ret r, tick (tick (Ref.world Ref.files)))
    /\ success r = false
    /\ outputs r = []
    /\ errors r = [exn_str (Failure "cannot open document")]
    /\ pages r = 0.
Proof.
  apply (unreadable_pdf_source_fails_without_writing Ref.quiet
           (Ref.job "in/none.pdf" PDF_TO_JPG "{name}" Overwrite "1-2")
           None None (Ref.world Ref.files)
           (Failure "cannot open document")).
  - reflexivity.
  - left. reflexivity.
  - reflexivity.
Defined.

(** ** The pages of a PDF job, counted *)

Section PageCount.

Variable E : Env.

Lemma pdf_pages_loop_counts job fmt doc zoom cb1 cb2 n pages :
  forall idx outs errs w outs' errs' w',
    pdf_pages_loop E job fmt doc zoom cb1 cb2 n idx pages outs errs w
    = (Ret (outs', errs'), w') ->
    (length outs' + length errs'
     <= length outs + length errs + length pages)%nat
    /\ (cb2 = None ->
        (length outs' + length errs'
         = length outs + length errs + length pages)%nat).
Proof.
  induction pages as [|page_no rest IH]; intros idx outs errs w outs' errs' w' H;
    cbn [pdf_pages_loop] in H; munfold.
  - minv. cbn [length]. lia.
  - destruct cb2 as [f|].
    + destruct (f w) as [[[|]|exc] w1]; minv; cbn [length];
        [split; [lia | done] |].
      destruct (pdf_page E job fmt doc zoom page_no w1) as [[p|exc] w2];
          (destruct cb1 as [g|];
           [destruct (g (page_progress idx n) w2) as [[[]|exc'] w3]; minv |]);
          apply IH in H as [H _]; rewrite ?length_app in H; cbn [length] in *;
          (split; [lia | done]).
    + destruct (pdf_page E job fmt doc zoom page_no w) as [[p|exc] w2];
        (destruct cb1 as [g|];
         [destruct (g (page_progress idx n) w2) as [[[]|exc'] w3]; minv |]);
        apply IH in H as [H1 H2]; rewrite ?length_app in H1, H2;
        cbn [length] in *; specialize (H2 eq_refl); (split; [lia | intros _; lia]).
Qed.

(** X17: when a PDF job returns, every selected page it got to is
    either in [outputs] or in [errors], never in both: the two lists
    together are no longer than the selection, and exactly as long when
    there is no cancellation callback.  [pages] counts the outputs, and
    the job succeeded exactly when there is no error. *)
Theorem pdf_job_accounts_for_every_page
    (job : JobSpec) (fmt : ImageFormat)
    (on_progress : option ProgressCallback)
    (is_cancelled : option CancelledCallback) (w : World)
    (doc : Doc E) (pages_list : list Z) (r : ConversionResult) (w' : World) :
  fitz_open E (fs w) (input_path job) = Ret doc ->
  selected_pages job (page_count E doc) = Ret pages_list ->
  _pdf_to_images E job fmt on_progress is_cancelled w = (Ret r, w') ->
  pages r = Z.of_nat (length (outputs r))
  /\ success r = bool_decide (errors r = [])
  /\ (length (outputs r) + length (errors r) <= length pages_list)%nat
  /\ (is_cancelled = None ->
      (length (outputs r) + length (errors r) = length pages_list)%nat).
Proof.
  intros Hopen Hsel H. unfold _pdf_to_images in H. munfold.
  rewrite fs_tick, Hopen, Hsel in H.
  destruct (zoom_of_dpi (dpi job)) as [zoom|exc]; [| minv].
  destruct (pdf_pages_loop E job fmt doc zoom on_progress is_cancelled
              (length pages_list) 1 pages_list [] [] (tick w))
    as [[[outs errs]|exc] w1] eqn:Hloop; minv.
  apply pdf_pages_loop_counts in Hloop as [H1 H2].
  cbn [outputs errors pages success length] in *.
  repeat split; [lia |].
  intros Hc. specialize (H2 Hc). lia.
Qed.

(** X18: a PDF job that finds the cancellation flag set at its first
    reading stops before any page: it reports a success with no output
    and no error, and writes no file of its own. *)
Theorem pdf_job_cancelled_at_once_is_an_empty_success
    (job : JobSpec) (fmt : ImageFormat)
    (on_progress : option ProgressCallback) (flag : CancelledCallback)
    (w w1 : World) (doc : Doc E) (pages_list : list Z) (zoom : Q) :
  fitz_open E (fs w) (input_path job) = Ret doc ->
  selected_pages job (page_count E doc) = Ret pages_list ->
  pages_list <> [] ->
  zoom_of_dpi (dpi job) = Ret zoom ->
  flag (tick w) = (Ret true, w1) ->
  exists r,
    _pdf_to_images E job fmt on_progress (Some flag) w = (Ret r, tick w1)
    /\ success r = true
    /\ outputs r = []
    /\ errors r = []
    /\ pages r = 0.
Proof.
  intros Hopen Hsel Hne Hzoom Hflag. unfold _pdf_to_images. munfold.
  rewrite fs_tick, Hopen, Hsel, Hzoom.
  destruct pages_list as [|page_no rest]; [done |].
  cbn [pdf_pages_loop]. munfold. rewrite Hflag. by eexists.
Qed.

End PageCount.

Lemma pdf_job_accounts_for_every_page_witness :
  pages {| success := false; outputs := ["out/d_1.png"; "out/d_3.png"];
           errors := ["Page 2: cannot render page"];
           elapsed_s := 1%Q; pages := 2 |}
  = Z.of_nat (length ["out/d_1.png"; "out/d_3.png"])
  /\ false = bool_decide (["Page 2: cannot render page"] = [])
  /\ (length ["out/d_1.png"; "out/d_3.png"]
      + length ["Page 2: cannot render page"] <= length [1; 2; 3])%nat
  /\ (@None CancelledCallback = None ->
      (length ["out/d_1.png"; "out/d_3.png"]
       + length ["Page 2: cannot render page"] = length [1; 2; 3])%nat).
Proof.
  refine (pdf_job_accounts_for_every_page Ref.quiet
            (Ref.job "in/d.pdf" PDF_TO_PNG "{name}_{page}" Overwrite EmptyString)
            PNG None None (Ref.world Ref.files) [true; false; true] [1; 2; 3]
            _ _ _ _ _).
  - vm_compute. reflexivity.
  - vm_compute. reflexivity.
  - vm_compute. reflexivity.
Defined.

Lemma pdf_job_cancelled_at_once_is_an_empty_success_witness :
  exists r,
    _pdf_to_images (Ref.env (fun _ => true))
      (Ref.job "in/d.pdf" PDF_TO_PNG "{name}_{page}" Overwrite EmptyString)
      PNG None (Some (is_cancelled (Ref.env (fun _ => true))))
      (Ref.world Ref.files)
    = (Ret r, tick (polled (tick (Ref.world Ref.files))))
    /\ success r = true
    /\ outputs r = []
    /\ errors r = []
    /\ pages r = 0.
Proof.
  apply (pdf_job_cancelled_at_once_is_an_empty_success (Ref.env (fun _ => true))
           (Ref.job "in/d.pdf" PDF_TO_PNG "{name}_{page}" Overwrite EmptyString)
           PNG None (is_cancelled (Ref.env (fun _ => true)))
           (Ref.world Ref.files) (polled (tick (Ref.world Ref.files)))
           [true; false; true] [1; 2; 3] (Qmax 1 (200 / 72))).
  - vm_compute. reflexivity.
  - vm_compute. reflexivity.
  - done.
  - vm_compute. reflexivity.
  - reflexivity.
Defined.

(** ** Existing files under Skip and Auto-rename *)

Lemma lookup_free_ne (files : FS) (p q : Path) :
  path_exists files p = true -> path_exists files q = false -> p <> q.
Proof. intros Hp Hq ->. by rewrite Hp in Hq. Qed.

Section ExistingFiles.

Variable E : Env.

(** [write_pdf] writes to its path alone. *)
Lemma write_pdf_one_path path inputs layout w o w' :
  write_pdf E path inputs layout w = (o, w') ->
  forall p, p <> path -> fs w' !! p = fs w !! p.
Proof.
  unfold write_pdf. munfold. intros H p Hp.
  destruct (open_wb_error E (fs w) path); [by minv |].
  cbn [fs set_fs] in H.
  destruct (img2pdf_convert E inputs layout (<[path:=EmptyString]> (fs w)));
    minv; cbn [fs set_fs]; by rewrite !lookup_insert_ne.
Qed.

Lemma separate_keeps_existing job cb w o w' :
  overwrite_policy job <> Overwrite ->
  keeps_files cb ->
  _images_to_pdf_separate E job cb w = (o, w') ->
  forall p, path_exists (fs w) p = true -> fs w' !! p = fs w !! p.
Proof.
  intros Hpol Hcb H p Hp.
  unfold _images_to_pdf_separate, images_to_pdf_separate_body in H.
  munfold. cbn [fs tick] in H.
  destruct (pdf_layout (page_size job) (fit_mode job) (margins_mm job))
    as [layout|exc]; [| by minv].
  destruct (policy_eqb (overwrite_policy job) Skip && _) eqn:Hskip;
    [by minv |].
  apply resolve_collision_free in Hskip; [| done].
  destruct (write_pdf E _ [input_path job] layout (tick w))
    as [[[]|exc] w1] eqn:Hw;
    apply write_pdf_one_path with (p := p) in Hw;
    try (by eapply lookup_free_ne); cbn [fs tick] in Hw.
  - destruct cb as [f|].
    + destruct (f 1%Q w1) as [[[]|exc] w2] eqn:Hf;
        apply (Hcb f eq_refl) in Hf; minv; cbn [fs tick]; congruence.
    + by minv.
  - by minv.
Qed.

(** X19: under Skip and Auto-rename a job that turns an image into a
    PDF of its own changes no file that was there before, whether it
    succeeds, fails or raises. *)
Theorem separate_pdf_job_keeps_existing_files
    (job : JobSpec) (on_progress : option ProgressCallback)
    (is_cancelled : option CancelledCallback)
    (w : World) (o : Outcome ConversionResult) (w' : World) :
  is_image_file (input_path job) = true ->
  mode job = IMAGES_TO_PDF_SEPARATE ->
  overwrite_policy job <> Overwrite ->
  keeps_files on_progress ->
  convert_job E job on_progress is_cancelled w = (o, w') ->
  forall p, path_exists (fs w) p = true -> fs w' !! p = fs w !! p.
Proof.
  intros Himg Hmode Hpol Hcb H. unfold convert_job in H.
  rewrite Himg, Hmode in H. cbn [mode_eqb orb andb] in H.
  rewrite andb_false_r in H. by eapply separate_keeps_existing.
Qed.

End ExistingFiles.

Lemma separate_pdf_job_keeps_existing_files_witness :
  fs (tick (set_fs (<["out/c_1.pdf" := "%PDF"]>
                      (<["out/c_1.pdf" := EmptyString]>
                         (<["out/c.pdf" := "old"]> Ref.files)))
                   (tick (Ref.world (<["out/c.pdf" := "old"]> Ref.files)))))
    !! "out/c.pdf"
  = fs (Ref.world (<["out/c.pdf" := "old"]> Ref.files)) !! "out/c.pdf".
Proof.
  refine (separate_pdf_job_keeps_existing_files Ref.quiet
            (Ref.job "in/c.png" IMAGES_TO_PDF_SEPARATE "{name}" Auto_rename
                     EmptyString)
            None None (Ref.world (<["out/c.pdf" := "old"]> Ref.files))
            (Ret {| success := true; outputs := ["out/c_1.pdf"]; errors := [];
                    elapsed_s := 1%Q; pages := 1 |})
            _ _ _ _ _ _ "out/c.pdf" _).
  - reflexivity.
  - reflexivity.
  - discriminate.
  - intros f Hf. discriminate Hf.
  - vm_compute. reflexivity.
  - reflexivity.
Defined.

(** ** Runs of the worker, whatever happens *)




Section WorkerAlways.

Variable E : Env.

Lemma write_pdf_polls path inputs layout w o w' :
  write_pdf E path inputs layout w = (o, w') -> polls w' = polls w.
Proof.
  unfold write_pdf. munfold. intros H.
  destruct (open_wb_error E (fs w) path); [by minv |].
  cbn [fs set_fs] in H.
  destruct (img2pdf_convert E inputs layout (<[path:=EmptyString]> (fs w)));
    by minv.
Qed.

Lemma single_pdf_frame inputs out ps fm mm w o w' :
  convert_images_to_single_pdf E inputs out ps fm mm w = (o, w') ->
  polls w' = polls w /\ forall p, p <> out -> fs w' !! p = fs w !! p.
Proof.
  unfold convert_images_to_single_pdf. munfold. intros H.
  destruct (pdf_layout ps fm mm) as [layout|exc]; [| by minv].
  destruct (write_pdf E out inputs layout (tick w)) as [[[]|exc] w1] eqn:Hw;
    pose proof (write_pdf_polls _ _ _ _ _ _ Hw) as Hpolls;
    pose proof (write_pdf_one_path _ _ _ _ _ _ _ Hw) as Hfs;
    minv; done.
Qed.

Lemma mark_skipped_polls total res jobs :
  forall idx w o w',
    mark_skipped total res idx jobs w = (o, w') -> polls w' = polls w.
Proof.
  induction jobs as [|j rest IH]; intros idx w o w' H;
    cbn [mark_skipped] in H; munfold; [by minv |].
  destruct (is_image_file (input_path j)); cbn [fst snd] in H;
    by apply IH in H.
Qed.

Lemma mark_merged_counts total res jobs :
  forall idx ok failed w ok' failed' w',
    mark_merged total res idx jobs ok failed w = (Ret (ok', failed'), w') ->
    polls w' = polls w
    /\ ok' = (ok + if success res then length (image_rows idx jobs) else 0)%nat
    /\ failed'
       = (failed + if success res then 0 else length (image_rows idx jobs))%nat.
Proof.
  induction jobs as [|j rest IH]; intros idx ok failed w ok' failed' w' H;
    cbn [mark_merged] in H; munfold.
  - minv. cbn [image_rows length]. destruct (success res); repeat split; lia.
  - cbn [image_rows].
    destruct (is_image_file (input_path j)); cbn [fst snd] in H;
      apply IH in H as (Hp & -> & ->); cbn [length polls add_event] in *;
      destruct (success res); repeat split; try done; lia.
Qed.

(** The merged branch, from the first image job to the summary. *)
Lemma run_merged_summary jobs w first_job rest :
  merged_mode jobs = true ->
  image_jobs jobs = first_job :: rest ->
  exists w' summary,
    run E jobs w = (Ret tt, w')
    /\ last (log w') = Some (finished summary)
    /\ polls w' = polls w
    /\ ((ok summary = length (image_jobs jobs) /\ failed summary = 0%nat)
        \/ (ok summary = 0%nat /\ failed summary = length (image_jobs jobs)))
    /\ (overwrite_policy first_job <> Overwrite ->
        forall p, path_exists (fs w) p = true -> fs w' !! p = fs w !! p).
Proof.
  intros Hmode Himgs.
  unfold run, bind, perf_counter. rewrite Hmode, Himgs.
  unfold run_merged, bind, get_fs. cbn [fs tick].
  destruct (policy_eqb (overwrite_policy first_job) Skip
            && path_exists (fs w) (merged_output_path (fs w) first_job)) eqn:Hskip.
  - fold (merged_skip_result (merged_output_path (fs w) first_job)).
    destruct (mark_skipped_run (length jobs)
                (merged_skip_result (merged_output_path (fs w) first_job))
                jobs 0%nat (tick w)) as (w1 & Hmark & Hfs & _).
    rewrite Hmark, emit_finished_run.
    apply mark_skipped_polls in Hmark.
    do 2 eexists. split; [reflexivity |]. cbn [log add_event tick fs polls].
    rewrite last_snoc. cbn [ok failed].
    split; [reflexivity |]. split; [done |].
    split; [left; cbn [ok failed]; by rewrite Himgs |].
    intros _ p _. by rewrite Hfs.
  - destruct (single_pdf_returns E (map input_path (image_jobs jobs))
                (merged_output_path (fs w) first_job)
                (page_size first_job) (fit_mode first_job) (margins_mm first_job)
                (add_event (status "Merging images into single PDF…") (tick w)))
      as (res & w1 & Hconv).
    unfold emit. rewrite Hconv.
    destruct (mark_merged_run (length jobs) res jobs 0%nat 0%nat 0%nat w1)
      as (w2 & ok' & failed' & Hmark & Hfs & _).
    rewrite Hmark, emit_finished_run.
    apply mark_merged_counts in Hmark as (Hpolls & -> & ->).
    apply single_pdf_frame in Hconv as [Hpolls1 Hfs1].
    do 2 eexists. split; [reflexivity |]. cbn [log add_event tick fs polls].
    rewrite last_snoc.
    split; [reflexivity |]. split; [by rewrite Hpolls, Hpolls1 |].
    cbn [ok failed]. rewrite length_image_rows, Himgs. split.
    + destruct (success res); [left | right]; split; lia.
    + intros Hpol p Hp. rewrite Hfs. cbn [fs add_event tick] in Hfs1.
      apply Hfs1. eapply lookup_free_ne; [exact Hp |].
      unfold merged_output_path in *. by apply resolve_collision_free.
Qed.

Lemma per_item_loop_run total jobs :
  forall idx ok failed w,
  exists ok' failed' w' new k,
    per_item_loop E total idx jobs ok failed w = (Ret (ok', failed'), w')
    /\ reports (log w') = reports (log w) ++ new
    /\ completion_rows new = seq idx k
    /\ summaries new = []
    /\ (ok' + failed')%nat = (ok + failed + k)%nat
    /\ (k <= length jobs)%nat
    /\ ((forall n, cancel_flag E n = false) -> k = length jobs).
Proof.
  induction jobs as [|job rest IH]; intros idx ok failed w;
    cbn [per_item_loop]; unfold bind, is_cancelled.
  - exists ok, failed, w, [], 0%nat. unfold ret.
    rewrite app_nil_r. repeat split; cbn [length]; lia.
  - destruct (cancel_flag E (polls w)) eqn:Hflag.
    + exists ok, failed, (polled w), [], 0%nat. unfold ret.
      cbn [log polled]. rewrite app_nil_r.
      repeat split; cbn [length]; try lia.
      intros Hnever. by rewrite Hnever in Hflag.
    + destruct (process_job_reports E total idx job (polled w))
        as (s & w2 & ev & -> & Hrep & Hrow & Hsum).
      cbn [log polled] in Hrep.
      destruct s;
        [ destruct (IH (S idx) (S ok) failed w2)
            as (ok' & failed' & w' & new & k & -> & Hrep' & Hrows & Hsums
                & Hcount & Hle & Hall)
        | destruct (IH (S idx) ok (S failed) w2)
            as (ok' & failed' & w' & new & k & -> & Hrep' & Hrows & Hsums
                & Hcount & Hle & Hall) ];
        exists ok', failed', w', (ev :: new), (S k);
        (split; [reflexivity |]);
        rewrite Hrep', Hrep, <- app_assoc;
        (split; [reflexivity |]);
        unfold completion_rows, summaries in *; cbn [omap list_omap];
        rewrite Hrow, Hsum; fold (omap completion_row new);
        fold (omap summary_of new); rewrite Hrows, Hsums;
        cbn [length seq]; repeat split; try lia;
        intros Hnever; specialize (Hall Hnever); lia.
Qed.

Lemma run_is_per_item jobs w :
  merged_mode jobs = false \/ image_jobs jobs = [] ->
  run E jobs w = run_per_item E (perf_counter_at E (clock w)) jobs (tick w).
Proof.
  intros Hmode. unfold run, bind, perf_counter.
  destruct Hmode as [-> | ->]; [done | by destruct (merged_mode jobs)].
Qed.


(** X21: when the flag is never set, a per-item run goes through the
    whole batch: it reports every row once, in queue order, and its
    summary has [ok + failed = total]. *)
Theorem uncancelled_run_reports_every_job (jobs : list JobSpec) (w : World) :
  merged_mode jobs = false \/ image_jobs jobs = [] ->
  (forall n, cancel_flag E n = false) ->
  exists w' new summary,
    run E jobs w = (Ret tt, w')
    /\ reports (log w') = reports (log w) ++ new ++ [finished summary]
    /\ completion_rows new = seq 0 (length jobs)
    /\ summaries new = []
    /\ total summary = length jobs
    /\ (ok summary + failed summary)%nat = length jobs.
Proof.
  intros Hmode Hnever. rewrite run_is_per_item by done.
  unfold run_per_item, bind.
  destruct (per_item_loop_run (length jobs) jobs 0%nat 0%nat 0%nat (tick w))
    as (ok' & failed' & w1 & new & k & -> & Hrep & Hrows & Hsums & Hcount
        & _ & Hall).
  specialize (Hall Hnever). subst k. rewrite emit_finished_run.
  exists (add_event
            (finished {| total := length jobs; ok := ok'; failed := failed';
                         ws_elapsed_s :=
                           (perf_counter_at E (clock w1)
                            - perf_counter_at E (clock w))%Q |})
            (tick w1)), new.
  eexists. split; [reflexivity |]. cbn [log add_event tick].
  rewrite reports_app, Hrep, <- app_assoc. cbn [total ok failed].
  repeat split; done.
Qed.

(** X22: a merged run never reads the cancellation flag: once started,
    it cannot be cancelled. *)
Theorem merged_run_ignores_cancellation
    (jobs : list JobSpec) (w : World) (o : Outcome unit) (w' : World) :
  merged_mode jobs = true ->
  image_jobs jobs <> [] ->
  run E jobs w = (o, w') ->
  polls w' = polls w.
Proof.
  intros Hmode Himgs Hrun.
  destruct (image_jobs jobs) as [|first_job rest] eqn:Hj; [done |].
  destruct (run_merged_summary jobs w first_job rest Hmode Hj)
    as (w1 & summary & Hrun' & _ & Hpolls & _).
  rewrite Hrun in Hrun'. by minv.
Qed.


(** X24: a merged run whose first image job asks for Skip or
    Auto-rename changes no file that was there before. *)
Theorem merged_run_keeps_existing_files
    (jobs : list JobSpec) (w : World) (first_job : JobSpec)
    (o : Outcome unit) (w' : World) :
  merged_mode jobs = true ->
  head (image_jobs jobs) = Some first_job ->
  overwrite_policy first_job <> Overwrite ->
  run E jobs w = (o, w') ->
  forall p, path_exists (fs w) p = true -> fs w' !! p = fs w !! p.
Proof.
  intros Hmode Hhead Hpol Hrun.
  destruct (image_jobs jobs) as [|j rest] eqn:Hj; [done |].
  injection Hhead as ->.
  destruct (run_merged_summary jobs w first_job rest Hmode Hj)
    as (w1 & summary & Hrun' & _ & _ & _ & Hfs).
  rewrite Hrun in Hrun'. minv. by apply Hfs.
Qed.

End WorkerAlways.

Lemma uncancelled_run_reports_every_job_witness :
  exists w' new summary,
    run Ref.quiet
      [Ref.job "in/a.heic" HEIC_TO_JPG "{name}" Overwrite EmptyString;
       Ref.job "in/bad.heic" HEIC_TO_JPG "{name}" Overwrite EmptyString]
      (Ref.world Ref.files) = (Ret tt, w')
    /\ reports (log w')
       = reports (log (Ref.world Ref.files)) ++ new ++ [finished summary]
    /\ completion_rows new
       = seq 0 (length
           [Ref.job "in/a.heic" HEIC_TO_JPG "{name}" Overwrite EmptyString;
            Ref.job "in/bad.heic" HEIC_TO_JPG "{name}" Overwrite EmptyString])
    /\ summaries new = []
    /\ total summary
       = length
           [Ref.job "in/a.heic" HEIC_TO_JPG "{name}" Overwrite EmptyString;
            Ref.job "in/bad.heic" HEIC_TO_JPG "{name}" Overwrite EmptyString]
    /\ (ok summary + failed summary)%nat
       = length
           [Ref.job "in/a.heic" HEIC_TO_JPG "{name}" Overwrite EmptyString;
            Ref.job "in/bad.heic" HEIC_TO_JPG "{name}" Overwrite EmptyString].
Proof.
  apply (uncancelled_run_reports_every_job Ref.quiet
           [Ref.job "in/a.heic" HEIC_TO_JPG "{name}" Overwrite EmptyString;
            Ref.job "in/bad.heic" HEIC_TO_JPG "{name}" Overwrite EmptyString]
           (Ref.world Ref.files)).
  - left. reflexivity.
  - intros n. reflexivity.
Defined.

Lemma merged_run_ignores_cancellation_witness :
  polls (snd (run (Ref.env (fun _ => true))
                [Ref.job "in/c.png" IMAGES_TO_PDF_MERGED "all" Auto_rename
                         EmptyString;
                 Ref.job "in/d.pdf" IMAGES_TO_PDF_MERGED "all" Auto_rename
                         EmptyString]
                (Ref.world Ref.files)))
  = polls (Ref.world Ref.files).
Proof.
  apply (merged_run_ignores_cancellation (Ref.env (fun _ => true))
           [Ref.job "in/c.png" IMAGES_TO_PDF_MERGED "all" Auto_rename
                    EmptyString;
            Ref.job "in/d.pdf" IMAGES_TO_PDF_MERGED "all" Auto_rename
                    EmptyString]
           (Ref.world Ref.files)
           (fst (run (Ref.env (fun _ => true))
                   [Ref.job "in/c.png" IMAGES_TO_PDF_MERGED "all" Auto_rename
                            EmptyString;
                    Ref.job "in/d.pdf" IMAGES_TO_PDF_MERGED "all" Auto_rename
                            EmptyString]
                   (Ref.world Ref.files)))).
  - reflexivity.
  - discriminate.
  - vm_compute. reflexivity.
Defined.


Lemma merged_run_keeps_existing_files_witness :
  fs (snd (run Ref.quiet
             [Ref.job "in/c.png" IMAGES_TO_PDF_MERGED "all" Auto_rename
                      EmptyString]
             (Ref.world (<["out/all.pdf" := "old"]> Ref.files))))
    !! "out/all.pdf"
  = fs (Ref.world (<["out/all.pdf" := "old"]> Ref.files)) !! "out/all.pdf".
Proof.
  refine (merged_run_keeps_existing_files Ref.quiet
            [Ref.job "in/c.png" IMAGES_TO_PDF_MERGED "all" Auto_rename
                     EmptyString]
            (Ref.world (<["out/all.pdf" := "old"]> Ref.files))
            (Ref.job "in/c.png" IMAGES_TO_PDF_MERGED "all" Auto_rename
                     EmptyString)
            (fst (run Ref.quiet
                    [Ref.job "in/c.png" IMAGES_TO_PDF_MERGED "all" Auto_rename
                             EmptyString]
                    (Ref.world (<["out/all.pdf" := "old"]> Ref.files))))
            _ _ _ _ _ "out/all.pdf" _).
  - reflexivity.
  - reflexivity.
  - discriminate.
  - vm_compute. reflexivity.
  - reflexivity.
Defined.
